(** * sockpp: address types and acceptor, a shallow embedding

    The address classes of sockpp ([unix_address], [inet6_address]) are
    overlays of the native [sockaddr_*] structures: every constructor,
    comparison and accessor is a [memcpy], [memcmp], [strncpy] or an array
    read on the raw bytes of the object.  The embedding therefore keeps an
    object as the list of its bytes and writes the C primitives out, with an
    explicit outcome for an access that leaves the object.

    Storage that C++ leaves indeterminate (a base sub-object without an
    initialiser, a local without a value) is an explicit argument of the
    function that uses it: [this] for the storage an object is constructed
    in, [len0] for an uninitialised [socklen_t]. *)

From Stdlib Require Import ZArith List Lia Bool.
From Stdlib Require Import Strings.Byte Strings.String.
From Stdlib Require Import Numbers.DecimalString Numbers.DecimalN.
From stdpp Require Import base tactics list gmap.

Local Open Scope Z_scope.

(** ** Platform constants

    Values of the system headers the library is compiled against
    (Linux, x86-64, glibc): address families, structure sizes and field
    offsets.  [sa_family_t] is an unsigned 16-bit integer stored in host
    (little-endian) byte order. *)
Module Platform.

Definition AF_UNIX : Z := 1.
Definition AF_INET : Z := 2.
Definition AF_INET6 : Z := 10.

Definition sizeof_sockaddr : nat := 16.
Definition sizeof_sockaddr_in : nat := 16.
Definition sizeof_sockaddr_in6 : nat := 28.
Definition sizeof_sockaddr_un : nat := 110.
Definition sizeof_sockaddr_storage : nat := 128.

(** [sockaddr_un]: [sun_family] at 0, [char sun_path[108]] at 2. *)
Definition offsetof_sun_path : nat := 2.
Definition sizeof_sun_path : nat := 108.

(** [sockaddr_in6]: [sin6_family] at 0, [sin6_port] at 2,
    [sin6_flowinfo] at 4, [sin6_addr] at 8 (16 bytes),
    [sin6_scope_id] at 24. *)
Definition offsetof_sin6_port : nat := 2.
Definition offsetof_sin6_addr : nat := 8.
Definition sizeof_in6_addr : nat := 16.

(** Modelled from the spec: [INVALID_SOCKET] comes from [platform.h], which
    is not part of the sources at hand; it is the "no descriptor" sentinel
    of a socket object that owns nothing. *)
Definition INVALID_SOCKET : Z := -1.

End Platform.

(** ** Outcomes

    A C++ expression either yields a value, leaves by an exception, or has
    no defined behaviour (an access outside the object it was given). *)
Inductive exn : Type :=
| invalid_argument (what : string)
| ConstructionError
| ios_base_failure.

Inductive res (A : Type) : Type :=
| Ok (a : A)
| Throw (e : exn)
| UB.

Arguments Ok {A} a.
Arguments Throw {A} e.
Arguments UB {A}.

Definition res_bind {A B : Type} (m : res A) (k : A -> res B) : res B :=
  match m with
  | Ok a => k a
  | Throw e => Throw e
  | UB => UB
  end.

Notation "'do' x <- m ; k" := (res_bind m (fun x => k))
  (at level 10, x name, m at level 100, k at level 200).

(** ** C memory primitives on byte lists *)
Module Mem.

Definition bytes : Type := list byte.

Definition NUL : byte := x00.

Definition byte_of_Z (z : Z) : byte :=
  match Byte.of_N (Z.to_N (z mod 256)) with
  | Some b => b
  | None => x00
  end.

Definition Z_of_byte (b : byte) : Z := Z.of_N (Byte.to_N b).

(** [memset(p, 0, n)] on an object [p] of at least [n] bytes. *)
Definition memset0 (dst : bytes) (n : nat) : res bytes :=
  if (n <=? length dst)%nat
  then Ok (replicate n NUL ++ drop n dst)
  else UB.

(** [memcpy(dst, src, n)]: the first [n] bytes of [dst] become the first
    [n] bytes of [src]; both objects must have [n] bytes. *)
Definition memcpy (dst src : bytes) (n : nat) : res bytes :=
  if ((n <=? length dst) && (n <=? length src))%nat
  then Ok (take n src ++ drop n dst)
  else UB.

(** [memcmp(a, b, n)]: bytes compared as [unsigned char], the sign of the
    first difference, [0] when there is none. *)
Fixpoint memcmp (a b : bytes) (n : nat) {struct n} : res Z :=
  match n with
  | O => Ok 0
  | S n' =>
      match a, b with
      | x :: a', y :: b' =>
          if Byte.eqb x y then memcmp a' b' n'
          else Ok (Z_of_byte x - Z_of_byte y)
      | _, _ => UB
      end
  end.

(** [std::string::c_str()]: the characters followed by a terminator. *)
Definition c_str (s : bytes) : bytes := s ++ [NUL].

(** [strncpy(dst, src, n)]: exactly [n] bytes of [dst] are written; the
    characters of [src] up to its first NUL, then NULs.  Once the NUL of
    [src] is reached the source position no longer advances, so that every
    later byte written is that NUL. *)
Fixpoint strncpy (dst src : bytes) (n : nat) {struct n} : res bytes :=
  match n with
  | O => Ok dst
  | S n' =>
      match dst, src with
      | _ :: dst', c :: src' =>
          if Byte.eqb c NUL
          then do r <- strncpy dst' src n' ; Ok (NUL :: r)
          else do r <- strncpy dst' src' n' ; Ok (c :: r)
      | _, _ => UB
      end
  end.

(** Reading a [char] array as a C string (the [std::string] constructor
    and the stream inserter taking a [char] pointer): the bytes before the
    first NUL; the read leaves the array when it holds none. *)
Fixpoint cstring (buf : bytes) : res bytes :=
  match buf with
  | [] => UB
  | c :: buf' =>
      if Byte.eqb c NUL then Ok []
      else do r <- cstring buf' ; Ok (c :: r)
  end.

(** [arr[i]] for a C array and an [int] index. *)
Definition array_get (arr : bytes) (i : Z) : res byte :=
  if i <? 0 then UB
  else match nth_error arr (Z.to_nat i) with
       | Some b => Ok b
       | None => UB
       end.

(** A field of [sz] bytes at offset [off]. *)
Definition field (off sz : nat) (obj : bytes) : bytes :=
  take sz (drop off obj).

Definition set_field (off : nat) (v obj : bytes) : bytes :=
  take off obj ++ v ++ drop (off + length v) obj.

(** A 16-bit field in host (little-endian) order. *)
Definition load_u16 (obj : bytes) (off : nat) : res Z :=
  match field off 2 obj with
  | [lo; hi] => Ok (Z_of_byte lo + 256 * Z_of_byte hi)
  | _ => UB
  end.

Definition store_u16 (obj : bytes) (off : nat) (v : Z) : res bytes :=
  if (off + 2 <=? length obj)%nat
  then Ok (set_field off [byte_of_Z v; byte_of_Z (v / 256)] obj)
  else UB.

(** [ntohs] on the two bytes of a field in network order. *)
Definition load_u16_be (obj : bytes) (off : nat) : res Z :=
  match field off 2 obj with
  | [hi; lo] => Ok (256 * Z_of_byte hi + Z_of_byte lo)
  | _ => UB
  end.

(** The characters of a string before its first NUL: what a C function
    sees of a [std::string] through [c_str()]. *)
Fixpoint until_NUL (s : bytes) : bytes :=
  match s with
  | [] => []
  | c :: s' => if Byte.eqb c NUL then [] else c :: until_NUL s'
  end.

Definition no_NUL (s : bytes) : Prop := Forall (fun c => c <> NUL) s.

Definition has_NUL (s : bytes) : bool := existsb (Byte.eqb NUL) s.

End Mem.

Import Mem.

(** ** Output streams

    What the stream inserter of [unix_address] uses of [std::ostream]: the
    formatted insertion of a C string.  A stream is the characters written
    so far together with the formatting and error state that insertion
    reads: field width, fill character, whether the adjustment is [left],
    the state bits and the exception mask.  The stream buffer takes every
    character it is given, as the buffer of a [std::ostringstream] does. *)
Module Ostream.

Definition goodbit : Z := 0.
Definition badbit : Z := 1.
Definition eofbit : Z := 2.
Definition failbit : Z := 4.

Record ostream : Type := mk_ostream {
  out : bytes;
  width : Z;
  fill : byte;
  adjust_left : bool;
  rdstate : Z;
  exceptions : Z
}.

(** [good()]: no state bit is set. *)
Definition good (os : ostream) : bool := rdstate os =? goodbit.

(** [setstate(bits)]: the bits are added to the state, and
    [ios_base::failure] is thrown when a bit of the new state is in the
    exception mask. *)
Definition setstate (bits : Z) (os : ostream) : res ostream :=
  let st := Z.lor (rdstate os) bits in
  if Z.land st (exceptions os) =? 0
  then Ok {| out := out os; width := width os; fill := fill os;
             adjust_left := adjust_left os; rdstate := st;
             exceptions := exceptions os |}
  else Throw ios_base_failure.

(** The characters a formatted insertion of [s] writes: [s] padded with the
    fill character to the field width, after [s] under [left] adjustment
    and before it otherwise. *)
Definition padded (os : ostream) (s : bytes) : bytes :=
  let pad := replicate (Z.to_nat (width os - Z.of_nat (length s))) (fill os) in
  if adjust_left os then s ++ pad else pad ++ s.

Section Library.

(** The standard lets the sentry of an insertion call [setstate(failbit)]
    when it finds the stream not good, and does not oblige it to:
    [sentry_sets_failbit] tells whether the library at hand does so for a
    stream in a given state. *)
Variable sentry_sets_failbit : ostream -> bool.

(** Formatted insertion of the characters [s]: on a stream that is not
    [good()] the sentry fails and nothing is written; otherwise the padded
    characters are written and the width is reset. *)
Definition insert_chars (s : bytes) (os : ostream) : res ostream :=
  if good os
  then Ok {| out := out os ++ padded os s; width := 0; fill := fill os;
             adjust_left := adjust_left os; rdstate := rdstate os;
             exceptions := exceptions os |}
  else if sentry_sets_failbit os then setstate failbit os else Ok os.

(** [os << s] for a [char] pointer [s]: the length of the C string is taken
    first, then the characters are inserted. *)
Definition insert_cstr (arr : bytes) (os : ostream) : res ostream :=
  do s <- cstring arr ;
  insert_chars s os.

End Library.

End Ostream.

(** ** unix_address (unix_address.cpp) *)
Module UnixAddress.
Import Platform.

(** Modelled from the spec: the value of [ADDRESS_FAMILY] is given in
    [unix_address.h], which is not part of the sources at hand; the expected
    family of a UNIX-domain address is [AF_UNIX], which the unit tests
    require of [sun_family] after the path constructor. *)
Definition ADDRESS_FAMILY : Z := AF_UNIX.

(** Modelled from the spec: [MAX_PATH_NAME] is declared in
    [unix_address.h], which is not part of the sources at hand; the
    specification calls it the maximum native path length, the size of
    [sun_path]. *)
Definition MAX_PATH_NAME : nat := sizeof_sun_path.

Definition sun_family (a : bytes) : res Z := load_u16 a 0.

Definition sun_path (a : bytes) : bytes :=
  field offsetof_sun_path sizeof_sun_path a.

(** [unix_address::unix_address(const string& path)]
<<
    sun_family = ADDRESS_FAMILY;
    ::strncpy(sun_path, path.c_str(), MAX_PATH_NAME);
>>
    The base [sockaddr_un] has no initialiser: [this] is what the storage
    held before. *)
Definition of_string (this : bytes) (path : bytes) : res bytes :=
  do this1 <- store_u16 this 0 ADDRESS_FAMILY ;
  do p <- strncpy (sun_path this1) (c_str path) MAX_PATH_NAME ;
  Ok (set_field offsetof_sun_path p this1).

(** [unix_address::unix_address(const sockaddr& addr)]
<<
    sa_family_t domain = *(reinterpret_cast<const sa_family_t *>(&addr));
    if (domain != AF_UNIX)
        throw std::invalid_argument("Not a UNIX-domain address");
    std::memcpy(sockaddr_ptr(), &addr, sizeof(sockaddr));
>> *)
Definition of_sockaddr (this : bytes) (addr : bytes) : res bytes :=
  do domain <- load_u16 addr 0 ;
  if negb (domain =? AF_UNIX)
  then Throw (invalid_argument "Not a UNIX-domain address")
  else memcpy this addr sizeof_sockaddr.

(** [unix_address::unix_address(const sockaddr_un& addr)]
<<
    if (addr.sun_family != AF_UNIX)
        throw std::invalid_argument("Not initialized as a UNIX-domain address");
    std::memcpy(sockaddr_un_ptr(), &addr, sizeof(sockaddr_un));
>> *)
Definition of_sockaddr_un (this : bytes) (addr : bytes) : res bytes :=
  do fam <- sun_family addr ;
  if negb (fam =? AF_UNIX)
  then Throw (invalid_argument "Not initialized as a UNIX-domain address")
  else memcpy this addr sizeof_sockaddr_un.

(** Modelled from the spec: [path()] is defined in [unix_address.h], not
    at hand; the unit tests compare it with the C string held in
    [sun_path]. *)
Definition path (a : bytes) : res bytes := cstring (sun_path a).

(** [sockaddr_ptr()] and [sockaddr_un_ptr()] are casts of [this]: the
    native structure of an address is the object itself. *)
Definition sockaddr_ptr (a : bytes) : bytes := a.
Definition sockaddr_un_ptr (a : bytes) : bytes := a.

(** [ostream& operator<<(ostream& os, const unix_address& addr)]
<<
    os << "unix:" << addr.sun_path;
    return os;
>>
    Two formatted insertions of C strings, the literal and the array
    [sun_path]; [lib] is the choice of the stream library described in
    [Ostream]. *)
Definition insert (lib : Ostream.ostream -> bool) (os : Ostream.ostream)
  (addr : bytes) : res Ostream.ostream :=
  do os1 <- Ostream.insert_cstr lib (c_str (list_byte_of_string "unix:")) os ;
  Ostream.insert_cstr lib (sun_path addr) os1.

End UnixAddress.

(** ** sock_address

    [sock_address.h] is not part of the sources at hand; the wrapper is
    taken from the specification's description of it. *)
Module SockAddress.
Import Platform.

(** Modelled from the spec: the generic "any family" wrapper stores the
    byte length in use and backing storage large enough for the largest
    supported family (a [sockaddr_storage]). *)
Record sock_address : Type := mk_sock_address {
  addr_ : bytes;
  sz_ : nat
}.

(** Modelled from the spec: the constructor from a pointer and a length
    copies that many bytes into the storage and records the length. *)
Definition make (this : bytes) (addr : bytes) (n : nat) : res sock_address :=
  do st <- memcpy this addr n ;
  Ok {| addr_ := st; sz_ := n |}.

(** Modelled from the spec: the raw-byte view of the wrapper. *)
Definition sockaddr_ptr (a : sock_address) : bytes := addr_ a.

(** Modelled from the spec: the byte length in use. *)
Definition size (a : sock_address) : nat := sz_ a.

(** The bytes in use. *)
Definition valid_bytes (a : sock_address) : bytes := take (sz_ a) (addr_ a).

End SockAddress.

(** ** inet6_address (inet6_address.h) *)
Module Inet6Address.
Import Platform.

Definition ADDRESS_FAMILY : Z := AF_INET6.

(** The class adds no member to [sockaddr_in6]. *)
Definition sizeof_inet6_address : nat := sizeof_sockaddr_in6.

(** [void zero() { std::memset(this, 0, sizeof(inet6_address)); }] *)
Definition zero (this : bytes) : res bytes := memset0 this sizeof_inet6_address.

(** [inet6_address() { zero(); }] *)
Definition default (this : bytes) : res bytes := zero this.

(** [inet6_address(const sockaddr_storage& addr)]
<<
    std::memcpy(sockaddr_ptr(), &addr, sizeof(sockaddr_storage));
>> *)
Definition of_sockaddr_storage (this : bytes) (addr : bytes) : res bytes :=
  memcpy this addr sizeof_sockaddr_storage.

(** [inet6_address(const sock_address& addr)]
<<
    std::memcpy(sockaddr_ptr(), addr.sockaddr_ptr(), sizeof(sockaddr_in));
>> *)
Definition of_sock_address (this : bytes) (addr : SockAddress.sock_address)
  : res bytes :=
  memcpy this (SockAddress.sockaddr_ptr addr) sizeof_sockaddr_in.

(** [inet6_address(const sockaddr_in6& addr)]
<<
    std::memcpy(sockaddr_in6_ptr(), &addr, sizeof(sockaddr_in6));
>> *)
Definition of_sockaddr_in6 (this : bytes) (addr : bytes) : res bytes :=
  memcpy this addr sizeof_sockaddr_in6.

(** [inet6_address(const inet6_address& addr)]
<<
    std::memcpy(this, &addr, sizeof(inet6_address));
>> *)
Definition copy (this : bytes) (addr : bytes) : res bytes :=
  memcpy this addr sizeof_inet6_address.

Definition sin6_family (a : bytes) : res Z := load_u16 a 0.

(** [in6_addr address() const { return this->sin6_addr; }] *)
Definition address (a : bytes) : bytes :=
  field offsetof_sin6_addr sizeof_in6_addr a.

(** [uint8_t operator[](int i) const { return this->sin6_addr.s6_addr[i]; }] *)
Definition index (a : bytes) (i : Z) : res byte := array_get (address a) i.

(** [in_port_t port() const { return ntohs(this->sin6_port); }] *)
Definition port (a : bytes) : res Z := load_u16_be a offsetof_sin6_port.

(** [socklen_t size() const { return (socklen_t) sizeof(sockaddr_in6); }] *)
Definition size (a : bytes) : nat := sizeof_sockaddr_in6.

Definition sockaddr_ptr (a : bytes) : bytes := a.
Definition sockaddr_in6_ptr (a : bytes) : bytes := a.

(** [sock_address to_sock_address() const]
<<
    return sock_address(sockaddr_ptr(), size());
>> *)
Definition to_sock_address (tmp : bytes) (a : bytes)
  : res SockAddress.sock_address :=
  SockAddress.make tmp (sockaddr_ptr a) (size a).

(** The comparison operators take references: an operand is the address of
    an object in a store, and two operands may be the same object. *)
Abbreviation loc := Z (only parsing).
Abbreviation store := (gmap Z bytes) (only parsing).

Definition deref (h : store) (l : loc) : res bytes :=
  match h !! l with
  | Some o => Ok o
  | None => UB
  end.

(** [operator==]
<<
    return (&lhs == &rhs) || (std::memcmp(&lhs, &rhs, sizeof(inet6_address)) == 0);
>> *)
Definition eq_op (h : store) (lhs rhs : loc) : res bool :=
  if lhs =? rhs then Ok true
  else
    do a <- deref h lhs ;
    do b <- deref h rhs ;
    do c <- memcmp a b sizeof_inet6_address ;
    Ok (c =? 0).

(** [operator!=]
<<
    return !operator==(lhs, rhs);
>> *)
Definition ne_op (h : store) (lhs rhs : loc) : res bool :=
  do e <- eq_op h lhs rhs ;
  Ok (negb e).

Definition decimal (z : Z) : bytes :=
  list_byte_of_string (NilEmpty.string_of_uint (N.to_uint (Z.to_N z))).

(** Modelled from the spec: [to_string] is only declared in the header; its
    definition is not at hand.  Its documentation gives the form
    ["[address]:port"], the address text coming from [inet_ntop], a function
    of the C library taken here as a parameter. *)
Definition to_string (inet_ntop : bytes -> bytes) (a : bytes) : res bytes :=
  do p <- port a ;
  Ok (list_byte_of_string "[" ++ inet_ntop (address a)
      ++ list_byte_of_string "]:" ++ decimal p).

(** Reading a text of the shape ["[address]:port"] back: the characters
    after the opening bracket up to the first closing bracket, and the
    number that the decimal digits after the colon denote. *)
Fixpoint until_bracket (s : bytes) : option (bytes * bytes) :=
  match s with
  | [] => None
  | c :: s' =>
      if Byte.eqb c "]"%byte then Some ([], s')
      else match until_bracket s' with
           | Some (a, rest) => Some (c :: a, rest)
           | None => None
           end
  end.

Definition parse_decimal (digits : bytes) : option Z :=
  match NilEmpty.uint_of_string (string_of_list_byte digits) with
  | Some d => Some (Z.of_N (N.of_uint d))
  | None => None
  end.

Definition parse_text (s : bytes) : option (bytes * Z) :=
  match s with
  | c :: rest =>
      if Byte.eqb c "["%byte then
        match until_bracket rest with
        | Some (a, c' :: digits) =>
            if Byte.eqb c' ":"%byte then
              match parse_decimal digits with
              | Some p => Some (a, p)
              | None => None
              end
            else None
        | _ => None
        end
      else None
  | [] => None
  end.

End Inet6Address.

(** ** socket

    [socket.h] is not part of the sources at hand; what the acceptor uses of
    its base class is taken from the specification. *)
Module Socket.
Import Platform.

(** Modelled from the spec: a socket handle holds one descriptor (or the
    "no descriptor" sentinel) and a last-error slot. *)
Record socket : Type := mk_socket {
  handle_ : Z;
  lastErr_ : Z
}.

(** Modelled from the spec: the descriptor the handle holds. *)
Definition handle (s : socket) : Z := handle_ s.

(** Modelled from the spec: a handle is open when it holds a descriptor. *)
Definition is_open (s : socket) : bool := negb (handle_ s =? INVALID_SOCKET).

(** Modelled from the spec: every native call updates the last-error slot,
    cleared on success and set to the platform error on failure, a negative
    return value being the failure sentinel; the value is passed on. *)
Definition check_ret (ret : Z) (err : Z) (s : socket) : Z * socket :=
  (ret, {| handle_ := handle_ s; lastErr_ := if ret <? 0 then err else 0 |}).

(** Modelled from the spec: as [check_ret], the outcome reported as a
    boolean. *)
Definition check_ret_bool (ret : Z) (err : Z) (s : socket) : bool * socket :=
  (0 <=? ret, {| handle_ := handle_ s; lastErr_ := if ret <? 0 then err else 0 |}).

(** [explicit stream_socket(socket_t sock) : socket(sock) {}]: the new
    object takes the descriptor. *)
Definition stream_socket (s : Z) : socket := {| handle_ := s; lastErr_ := 0 |}.

End Socket.

(** ** The native calls

    [::bind], [::listen] and [::accept] are calls into the operating system.
    The kernel is an arbitrary state with arbitrary answers: a call returns
    a value ([-1] on failure) and a new kernel state, the error of the last
    failing call being read from the state.  [::accept] also yields the
    native address of the connecting peer. *)
Record native (kernel : Type) : Type := mk_native {
  os_bind : kernel -> Z -> bytes -> nat -> Z * kernel;
  os_listen : kernel -> Z -> Z -> Z * kernel;
  os_accept : kernel -> Z -> Z -> (Z * bytes) * kernel;
  get_last_error : kernel -> Z
}.

Arguments os_bind {kernel} _ _ _ _ _.
Arguments os_listen {kernel} _ _ _ _.
Arguments os_accept {kernel} _ _ _ _.
Arguments get_last_error {kernel} _ _.

(** What [::accept(fd, paddr, &len)] leaves in the caller's buffer: the
    peer's address truncated to the length the caller passed in [len], and
    nothing when the call failed. *)
Definition accept_copy_out (buf peer : bytes) (len : Z) (ret : Z) : res bytes :=
  if ret <? 0 then Ok buf
  else memcpy buf peer (Z.to_nat (Z.min len (Z.of_nat (length peer)))).

(** ** acceptor (acceptor.h, acceptor.cpp) *)
Module Acceptor.
Import Platform Socket.

Definition DFLT_QUE_SIZE : Z := 4.

Record acceptor : Type := mk_acceptor {
  sock : socket;
  addr_ : SockAddress.sock_address
}.

Section WithKernel.
Context {kernel : Type} (os : native kernel).

(** [bool acceptor::bind(const sockaddr* addr, socklen_t len)]
<<
    bool ok = check_ret_bool(::bind(handle(), addr, len));
    if (ok)
        addr_ = sock_address(addr, len);
    return ok;
>>
    [tmp] is the storage of the temporary [sock_address]. *)
Definition bind (tmp : bytes) (addr : bytes) (len : nat)
  (a : acceptor) (k : kernel) : res (bool * acceptor * kernel) :=
  let '(ret, k1) := os_bind os k (handle (sock a)) addr len in
  let '(ok, s1) := check_ret_bool ret (get_last_error os k1) (sock a) in
  if ok then
    do sa <- SockAddress.make tmp addr len ;
    Ok (ok, {| sock := s1; addr_ := sa |}, k1)
  else
    Ok (ok, {| sock := s1; addr_ := addr_ a |}, k1).

(** [bool listen(int queSize)]
<<
    return check_ret_bool(::listen(handle(), queSize));
>> *)
Definition listen (queSize : Z) (a : acceptor) (k : kernel)
  : bool * acceptor * kernel :=
  let '(ret, k1) := os_listen os k (handle (sock a)) queSize in
  let '(ok, s1) := check_ret_bool ret (get_last_error os k1) (sock a) in
  (ok, {| sock := s1; addr_ := addr_ a |}, k1).

(** [bool acceptor::open(const sockaddr* addr, socklen_t len, int queSize)]
<<
    {
    }
>>
    The body holds no statement: nothing is called, the acceptor and the
    kernel are as before, and control reaches the end of a function
    returning [bool] without a [return]; the returned value is [None]. *)
Definition open (addr : bytes) (len : nat) (queSize : Z)
  (a : acceptor) (k : kernel) : option bool * acceptor * kernel :=
  (None, a, k).

End WithKernel.

End Acceptor.

(** ** acceptor<acc_socket, acc_addr> (the class template)

    The template is parameterised by the address type: [acc_default] is its
    default constructor and [acc_of_sock_address] its constructor from a
    [sock_address], both acting on the storage they are given. *)
Module AcceptorT.
Import Platform Socket.

Record acceptor : Type := mk_acceptor {
  sock : socket;
  addr_ : bytes
}.

Section WithKernel.
Context {kernel : Type} (os : native kernel).
Variable acc_default : bytes -> res bytes.
Variable acc_of_sock_address : bytes -> SockAddress.sock_address -> res bytes.

(** [bool bind(const sockaddr* addr, socklen_t len)]
<<
    bool ok = check_ret_bool(::bind(handle(), addr, len));
    if (ok)
      addr_ = sock_address(addr, len);
    return ok;
>>
    The assignment converts the temporary [sock_address] (storage [tmp]) to
    an [acc_addr] (storage [tmp']) and copies it over [addr_]. *)
Definition bind (tmp tmp' : bytes) (addr : bytes) (len : nat)
  (a : acceptor) (k : kernel) : res (bool * acceptor * kernel) :=
  let '(ret, k1) := os_bind os k (handle (sock a)) addr len in
  let '(ok, s1) := check_ret_bool ret (get_last_error os k1) (sock a) in
  if ok then
    do sa <- SockAddress.make tmp addr len ;
    do v <- acc_of_sock_address tmp' sa ;
    Ok (ok, {| sock := s1; addr_ := v |}, k1)
  else
    Ok (ok, {| sock := s1; addr_ := addr_ a |}, k1).

(** [std::pair<acc_socket,acc_addr> accept()]
<<
    acc_addr addr;
    socklen_t len;

    auto paddr = reinterpret_cast<sockaddr *>(&addr);
    socket_t s = check_ret(::accept(handle(), paddr, &len));
    return { stream_socket(s), addr };
>>
    [this_addr] is the storage of the local [addr]; [len0] is the value the
    local [len], which is given no initial value, holds at the call. *)
Definition accept (this_addr : bytes) (len0 : Z)
  (a : acceptor) (k : kernel) : res ((socket * bytes) * acceptor * kernel) :=
  do addr <- acc_default this_addr ;
  let '(ret, peer, k1) := os_accept os k (handle (sock a)) len0 in
  do addr1 <- accept_copy_out addr peer len0 ret ;
  let '(s, s1) := check_ret ret (get_last_error os k1) (sock a) in
  Ok ((stream_socket s, addr1), {| sock := s1; addr_ := addr_ a |}, k1).

(** [bool listen(int queSize)]
<<
    return check_ret_bool(::listen(handle(), queSize));
>> *)
Definition listen (queSize : Z) (a : acceptor) (k : kernel)
  : bool * acceptor * kernel :=
  let '(ret, k1) := os_listen os k (handle (sock a)) queSize in
  let '(ok, s1) := check_ret_bool ret (get_last_error os k1) (sock a) in
  (ok, {| sock := s1; addr_ := addr_ a |}, k1).

(** [acc_addr addr() const { return addr_; }] *)
Definition addr (a : acceptor) : bytes := addr_ a.

(** [acceptor(const sock_address_ref& addr, int queSize=DFLT_QUE_SIZE)]
<<
    : socket(addr) {
        if (!bind(addr.sockaddr_ptr(), addr.size()) || !listen(queSize))
            throw ConstructionError();
    }
>>
    The base [socket(addr)] is defined in [socket.h], which is not at hand:
    [s0] is the socket object it leaves.  The member [addr_] is
    default-constructed in the storage [this_addr] before the body runs;
    [addr] and [len] are what the reference gives as pointer and size. *)
Definition construct (s0 : socket) (this_addr tmp tmp' : bytes)
  (addr : bytes) (len : nat) (queSize : Z) (k : kernel)
  : res (acceptor * kernel) :=
  do d <- acc_default this_addr ;
  do r <- bind tmp tmp' addr len {| sock := s0; addr_ := d |} k ;
  let '(ok, a1, k1) := r in
  if negb ok then Throw ConstructionError
  else
    let '(ok2, a2, k2) := listen queSize a1 k1 in
    if negb ok2 then Throw ConstructionError
    else Ok (a2, k2).

End WithKernel.

End AcceptorT.

(** ** Concrete values used below *)
Module Examples.
Import Platform.

Definition zeroed (n : nat) : bytes := replicate n NUL.

(** The IPv6 endpoint [::1] port 5000 as a [sockaddr_in6]: family [AF_INET6],
    port [0x1388] in network order, no flow information, the loopback
    address, scope 0. *)
Definition loopback6 : bytes :=
  [x0a; x00] ++ [x13; x88] ++ replicate 4 NUL
  ++ (replicate 15 NUL ++ [x01]) ++ replicate 4 NUL.

(** The same [sockaddr_in6] with [sin6_family] set to [AF_INET]. *)
Definition in6_tagged_inet : bytes :=
  [x02; x00] ++ drop 2 loopback6.

(** The [sockaddr_un] of the unit test "reject bad sockaddr_un": the path
    [/tmp/sock] under the family [AF_INET]. *)
Definition bad_sockaddr_un : bytes :=
  [x02; x00] ++ list_byte_of_string "/tmp/sock" ++ replicate 99 NUL.

(** The same structure under [AF_UNIX]. *)
Definition good_sockaddr_un : bytes :=
  [x01; x00] ++ list_byte_of_string "/tmp/sock" ++ replicate 99 NUL.

(** A [sockaddr_storage] that holds [loopback6]. *)
Definition storage6 : bytes := loopback6 ++ replicate 100 NUL.

(** A path longer than the 14 bytes of [sockaddr::sa_data]. *)
Definition long_path : bytes := list_byte_of_string "/tmp/sockpp/acceptor.sock".

(** The three-character string [a], NUL, [b]. *)
Definition nul_path : bytes := [x61; x00; x62].

(** A path of exactly [MAX_PATH_NAME] characters. *)
Definition full_path : bytes := replicate 108 x61.

(** A kernel that refuses every [::bind] and [::listen] with [EADDRINUSE]
    (98) and has no pending connection ([EAGAIN], 11). *)
Definition refusing : native unit := {|
  os_bind := fun k _ _ _ => (-1, k);
  os_listen := fun k _ _ => (-1, k);
  os_accept := fun k _ _ => ((-1, []), k);
  get_last_error := fun _ => 98
|}.

(** A kernel that grants every call; [::accept] hands out descriptor 4 for
    a peer connecting from [loopback6]. *)
Definition granting : native unit := {|
  os_bind := fun k _ _ _ => (0, k);
  os_listen := fun k _ _ => (0, k);
  os_accept := fun k _ _ => ((4, loopback6), k);
  get_last_error := fun _ => 0
|}.

(** An acceptor that owns descriptor 3 and has no cached address yet. *)
Definition opened : Acceptor.acceptor := {|
  Acceptor.sock := {| Socket.handle_ := 3; Socket.lastErr_ := 0 |};
  Acceptor.addr_ := {| SockAddress.addr_ := zeroed 128; SockAddress.sz_ := 128 |}
|}.

(** A default-constructed acceptor: no descriptor. *)
Definition unopened : Acceptor.acceptor := {|
  Acceptor.sock := {| Socket.handle_ := INVALID_SOCKET; Socket.lastErr_ := 0 |};
  Acceptor.addr_ := {| SockAddress.addr_ := zeroed 128; SockAddress.sz_ := 128 |}
|}.

(** A listening [acceptor<tcp6_socket, inet6_address>] on descriptor 3,
    bound to [loopback6]. *)
Definition listening6 : AcceptorT.acceptor := {|
  AcceptorT.sock := {| Socket.handle_ := 3; Socket.lastErr_ := 0 |};
  AcceptorT.addr_ := loopback6
|}.

(** A fresh stream: nothing written, no field width, fill character space,
    right adjustment, good state, no exception enabled. *)
Definition fresh_stream : Ostream.ostream := {|
  Ostream.out := [];
  Ostream.width := 0;
  Ostream.fill := x20;
  Ostream.adjust_left := false;
  Ostream.rdstate := Ostream.goodbit;
  Ostream.exceptions := 0
|}.

(** The same stream after [std::setw(8)]. *)
Definition wide_stream : Ostream.ostream := {|
  Ostream.out := [];
  Ostream.width := 8;
  Ostream.fill := x20;
  Ostream.adjust_left := false;
  Ostream.rdstate := Ostream.goodbit;
  Ostream.exceptions := 0
|}.

(** The same stream with [failbit] set. *)
Definition failed_stream : Ostream.ostream := {|
  Ostream.out := [];
  Ostream.width := 0;
  Ostream.fill := x20;
  Ostream.adjust_left := false;
  Ostream.rdstate := Ostream.failbit;
  Ostream.exceptions := 0
|}.

(** A library whose sentry sets [failbit] on every stream it finds not
    good, and one that does so only when [badbit] is set. *)
Definition always_sets : Ostream.ostream -> bool := fun _ => true.
Definition sets_when_bad : Ostream.ostream -> bool :=
  fun os => Z.testbit (Ostream.rdstate os) 0.

End Examples.

(** * Properties *)

(** ** The memory primitives *)
Section MemFacts.

Lemma byte_eqb_refl (b : byte) : Byte.eqb b b = true.
Proof. now apply Byte.byte_dec_lb. Qed.

Lemma memcpy_Ok (dst src : bytes) (n : nat) :
  (n <= length dst)%nat -> (n <= length src)%nat ->
  memcpy dst src n = Ok (take n src ++ drop n dst).
Proof.
  intros Hd Hs. unfold memcpy.
  apply Nat.leb_le in Hd. apply Nat.leb_le in Hs.
  now rewrite Hd, Hs.
Qed.

Lemma memcpy_whole (dst src : bytes) (n : nat) :
  length dst = n -> length src = n -> memcpy dst src n = Ok src.
Proof.
  intros Hd Hs. rewrite memcpy_Ok by lia.
  rewrite take_ge, drop_ge by lia. now rewrite app_nil_r.
Qed.

Lemma memcpy_overflow (dst src : bytes) (n : nat) :
  (length dst < n)%nat -> memcpy dst src n = UB.
Proof.
  intros Hd. unfold memcpy.
  apply Nat.leb_gt in Hd. now rewrite Hd.
Qed.

Lemma memcpy_length (dst src r : bytes) (n : nat) :
  memcpy dst src n = Ok r -> length r = length dst.
Proof.
  unfold memcpy. destruct (n <=? length dst)%nat eqn:Hd; [|discriminate].
  destruct (n <=? length src)%nat eqn:Hs; [|discriminate].
  apply Nat.leb_le in Hd. apply Nat.leb_le in Hs. simpl.
  intros [= <-]. rewrite length_app, length_take, length_drop. lia.
Qed.

(** [memcmp] is defined on two objects of at least [n] bytes, and is zero
    exactly when their first [n] bytes agree. *)
Lemma memcmp_spec (n : nat) : forall a b : bytes,
  (n <= length a)%nat -> (n <= length b)%nat ->
  exists c, memcmp a b n = Ok c /\ (c = 0 <-> take n a = take n b).
Proof.
  induction n as [|n IH]; intros a b Ha Hb.
  - exists 0. simpl. split; [reflexivity|]. now rewrite !take_0.
  - destruct a as [|x a]; [simpl in Ha; lia|].
    destruct b as [|y b]; [simpl in Hb; lia|].
    simpl in Ha, Hb. simpl memcmp.
    destruct (Byte.eqb x y) eqn:E.
    + apply Byte.byte_dec_bl in E. subst y.
      destruct (IH a b) as (c & Hc & Hiff); [lia|lia|].
      exists c. split; [exact Hc|]. simpl. rewrite Hiff.
      split; [now intros ->|now intros [= ->]].
    + apply Byte.eqb_false in E.
      exists (Z_of_byte x - Z_of_byte y). split; [reflexivity|].
      split.
      * intros H0. exfalso. apply E. unfold Z_of_byte in H0.
        assert (Hn : Byte.to_N x = Byte.to_N y) by lia.
        assert (Hs : Some x = Some y)
          by (rewrite <- (Byte.of_to_N x), <- (Byte.of_to_N y); now rewrite Hn).
        now injection Hs.
      * simpl. intros [= Hxy _]. contradiction.
Qed.

Lemma until_NUL_no_NUL (s : bytes) : no_NUL s -> until_NUL s = s.
Proof.
  induction 1 as [|c s Hc _ IH]; [reflexivity|]. simpl.
  destruct (Byte.eqb c NUL) eqn:E.
  - apply Byte.byte_dec_bl in E. contradiction.
  - now rewrite IH.
Qed.

Lemma until_NUL_length (s : bytes) : (length (until_NUL s) <= length s)%nat.
Proof.
  induction s as [|c s IH]; simpl; [lia|].
  destruct (Byte.eqb c NUL); simpl; lia.
Qed.

(** [strncpy] from a [c_str()] never reads past the terminator: it is
    defined whenever the destination holds [n] bytes, and writes the
    characters before the first NUL, cut at [n], then NULs up to [n]. *)
Lemma strncpy_c_str (n : nat) : forall dst s : bytes,
  (n <= length dst)%nat ->
  strncpy dst (c_str s) n
  = Ok (take n (until_NUL s)
        ++ replicate (n - length (until_NUL s)) NUL ++ drop n dst).
Proof.
  induction n as [|n IH]; intros dst s Hd.
  - reflexivity.
  - destruct dst as [|d dst]; [simpl in Hd; lia|]. simpl in Hd.
    destruct s as [|c s].
    + specialize (IH dst [] ltac:(lia)). simpl in *.
      rewrite IH. simpl. now rewrite take_nil, Nat.sub_0_r.
    + change (c_str (c :: s)) with (c :: c_str s) in *.
      cbn [strncpy until_NUL]. destruct (Byte.eqb c NUL) eqn:E.
      * specialize (IH dst (c :: s) ltac:(lia)).
        change (c_str (c :: s)) with (c :: c_str s) in IH.
        cbn [until_NUL] in IH. rewrite E in IH.
        rewrite IH. simpl. now rewrite take_nil, Nat.sub_0_r.
      * specialize (IH dst s ltac:(lia)).
        rewrite IH. reflexivity.
Qed.

Lemma cstring_terminated (s r : bytes) :
  no_NUL s -> cstring (s ++ NUL :: r) = Ok s.
Proof.
  induction 1 as [|c s Hc _ IH]; simpl; [reflexivity|].
  destruct (Byte.eqb c NUL) eqn:E.
  - apply Byte.byte_dec_bl in E. contradiction.
  - now rewrite IH.
Qed.

Lemma cstring_unterminated (s : bytes) : no_NUL s -> cstring s = UB.
Proof.
  induction 1 as [|c s Hc _ IH]; simpl; [reflexivity|].
  destruct (Byte.eqb c NUL) eqn:E.
  - apply Byte.byte_dec_bl in E. contradiction.
  - now rewrite IH.
Qed.

Lemma cstring_Ok_inv (buf p : bytes) :
  cstring buf = Ok p -> no_NUL p /\ exists r, buf = p ++ NUL :: r.
Proof.
  revert p. induction buf as [|c buf IH]; intros p; simpl; [discriminate|].
  destruct (Byte.eqb c NUL) eqn:E.
  - intros [= <-]. apply Byte.byte_dec_bl in E. subst c.
    split; [constructor|]. now exists buf.
  - destruct (cstring buf) as [q| |]; simpl; try discriminate.
    intros [= <-]. destruct (IH q eq_refl) as (Hq & r & ->).
    split.
    + constructor; [|exact Hq]. now apply Byte.eqb_false.
    + now exists r.
Qed.

Lemma until_NUL_is_no_NUL (s : bytes) : no_NUL (until_NUL s).
Proof.
  induction s as [|c s IH]; simpl; [constructor|].
  destruct (Byte.eqb c NUL) eqn:E; [constructor|].
  constructor; [|exact IH]. now apply Byte.eqb_false.
Qed.

End MemFacts.

(** ** unix_address *)
Section UnixAddressFacts.
Import Platform UnixAddress.

Lemma AF_UNIX_bytes : [byte_of_Z AF_UNIX; byte_of_Z (AF_UNIX / 256)] = [x01; x00].
Proof. reflexivity. Qed.

Lemma load_u16_cons2 (lo hi : byte) (rest : bytes) :
  load_u16 (lo :: hi :: rest) 0 = Ok (Z_of_byte lo + 256 * Z_of_byte hi).
Proof. reflexivity. Qed.

(** The path constructor is defined on every string, and its result is
    the family tag followed by the 108 bytes [strncpy] writes. *)
Lemma of_string_Ok (this path : bytes) :
  length this = sizeof_sockaddr_un ->
  of_string this path
  = Ok ([x01; x00]
        ++ take MAX_PATH_NAME (until_NUL path)
        ++ replicate (MAX_PATH_NAME - length (until_NUL path)) NUL).
Proof.
  intros Hlen. unfold of_string, store_u16, ADDRESS_FAMILY.
  cbv [sizeof_sockaddr_un] in Hlen.
  replace (0 + 2 <=? length this)%nat with true
    by (symmetry; apply Nat.leb_le; lia).
  cbn [res_bind]. rewrite AF_UNIX_bytes.
  change (set_field 0 [x01; x00] this) with (x01 :: x00 :: drop 2 this).
  assert (Hp : sun_path (x01 :: x00 :: drop 2 this) = drop 2 this).
  { unfold sun_path, field, offsetof_sun_path, sizeof_sun_path.
    cbn [drop]. apply take_ge. rewrite length_drop. lia. }
  rewrite Hp.
  rewrite strncpy_c_str
    by (rewrite length_drop; cbv [MAX_PATH_NAME sizeof_sun_path]; lia).
  rewrite (drop_ge (drop 2 this)), app_nil_r
    by (rewrite length_drop; cbv [MAX_PATH_NAME sizeof_sun_path]; lia).
  cbn [res_bind]. f_equal.
  unfold set_field, offsetof_sun_path.
  rewrite (drop_ge (x01 :: x00 :: drop 2 this)).
  - now rewrite app_nil_r.
  - cbn [length]. rewrite !length_app, length_take, length_replicate.
    rewrite length_drop. cbv [MAX_PATH_NAME sizeof_sun_path]. lia.
Qed.

Lemma of_string_length (this path a : bytes) :
  length this = sizeof_sockaddr_un ->
  of_string this path = Ok a -> length a = sizeof_sockaddr_un.
Proof.
  intros Hlen. rewrite of_string_Ok by exact Hlen. intros [= <-].
  cbn [length app]. rewrite length_app, length_take, length_replicate.
  cbv [MAX_PATH_NAME sizeof_sun_path sizeof_sockaddr_un]. lia.
Qed.

Lemma sun_path_tagged (lo hi : byte) (p : bytes) :
  length p = sizeof_sun_path -> sun_path (lo :: hi :: p) = p.
Proof.
  intros Hp. unfold sun_path, field, offsetof_sun_path. cbn [drop].
  apply take_ge. lia.
Qed.

Lemma has_NUL_cstring (buf : bytes) :
  has_NUL buf = true -> exists p r, buf = p ++ NUL :: r /\ cstring buf = Ok p.
Proof.
  induction buf as [|c buf IH]; simpl; [discriminate|].
  destruct (Byte.eqb c NUL) eqn:E.
  - apply Byte.byte_dec_bl in E. subst c. intros _. now exists [], buf.
  - assert (E' : Byte.eqb NUL c = false).
    { destruct (Byte.eqb NUL c) eqn:E'; [|reflexivity].
      apply Byte.byte_dec_bl in E'. subst c. now rewrite byte_eqb_refl in E. }
    rewrite E'. simpl. intros H. destruct (IH H) as (p & r & -> & Hc).
    exists (c :: p), r. split; [reflexivity|]. now rewrite Hc.
Qed.

(** Both constructors from a native structure reject a foreign family
    before anything is copied. *)
Lemma of_sockaddr_rejects (this addr : bytes) (fam : Z) :
  load_u16 addr 0 = Ok fam -> fam <> AF_UNIX ->
  of_sockaddr this addr = Throw (invalid_argument "Not a UNIX-domain address").
Proof.
  intros Hf Hne. unfold of_sockaddr. rewrite Hf. cbn [res_bind].
  destruct (fam =? AF_UNIX) eqn:E; [|reflexivity].
  apply Z.eqb_eq in E. contradiction.
Qed.

Lemma of_sockaddr_un_rejects (this addr : bytes) (fam : Z) :
  load_u16 addr 0 = Ok fam -> fam <> AF_UNIX ->
  of_sockaddr_un this addr
  = Throw (invalid_argument "Not initialized as a UNIX-domain address").
Proof.
  intros Hf Hne. unfold of_sockaddr_un, sun_family. rewrite Hf. cbn [res_bind].
  destruct (fam =? AF_UNIX) eqn:E; [|reflexivity].
  apply Z.eqb_eq in E. contradiction.
Qed.

(** With the right family the generic constructor copies the 16 bytes of a
    [sockaddr], the specific one the whole [sockaddr_un]. *)
Lemma of_sockaddr_accepts (this addr : bytes) :
  load_u16 addr 0 = Ok AF_UNIX ->
  length this = sizeof_sockaddr_un -> (sizeof_sockaddr <= length addr)%nat ->
  of_sockaddr this addr
  = Ok (take sizeof_sockaddr addr ++ drop sizeof_sockaddr this).
Proof.
  intros Hf Ht Ha. unfold of_sockaddr. rewrite Hf. cbn [res_bind Z.eqb negb].
  apply memcpy_Ok; [|exact Ha].
  rewrite Ht. cbv [sizeof_sockaddr sizeof_sockaddr_un]. lia.
Qed.

Lemma of_sockaddr_un_accepts (this addr : bytes) :
  load_u16 addr 0 = Ok AF_UNIX ->
  length this = sizeof_sockaddr_un -> (sizeof_sockaddr_un <= length addr)%nat ->
  of_sockaddr_un this addr = Ok (take sizeof_sockaddr_un addr).
Proof.
  intros Hf Ht Ha. unfold of_sockaddr_un, sun_family. rewrite Hf.
  cbn [res_bind Z.eqb negb]. rewrite memcpy_Ok by lia.
  rewrite drop_ge by lia. now rewrite app_nil_r.
Qed.

(** Rebuilding a [unix_address] from its own [sockaddr_un] gives it back. *)
Lemma of_sockaddr_un_round_trip (this a : bytes) :
  length this = sizeof_sockaddr_un -> length a = sizeof_sockaddr_un ->
  sun_family a = Ok AF_UNIX ->
  of_sockaddr_un this (sockaddr_un_ptr a) = Ok a.
Proof.
  intros Ht Ha Hf. unfold sockaddr_un_ptr.
  rewrite of_sockaddr_un_accepts by (try exact Hf; lia).
  now rewrite take_ge by lia.
Qed.

End UnixAddressFacts.

(** ** inet6_address *)
Section Inet6AddressFacts.
Import Platform Inet6Address.

(** No constructor of [inet6_address] looks at the family: the one from a
    [sockaddr_in6] copies the 28 bytes it is given. *)
Lemma of_sockaddr_in6_Ok (this addr : bytes) :
  length this = sizeof_sockaddr_in6 -> (sizeof_sockaddr_in6 <= length addr)%nat ->
  of_sockaddr_in6 this addr = Ok (take sizeof_sockaddr_in6 addr).
Proof.
  intros Ht Ha. unfold of_sockaddr_in6. rewrite memcpy_Ok by lia.
  rewrite drop_ge by lia. now rewrite app_nil_r.
Qed.

Lemma of_sockaddr_in6_round_trip (this a : bytes) :
  length this = sizeof_sockaddr_in6 -> length a = sizeof_sockaddr_in6 ->
  of_sockaddr_in6 this (sockaddr_in6_ptr a) = Ok a.
Proof.
  intros Ht Ha. unfold sockaddr_in6_ptr.
  rewrite of_sockaddr_in6_Ok by lia. now rewrite take_ge by lia.
Qed.

(** The constructor from a [sock_address] copies [sizeof(sockaddr_in)]
    bytes: the last 12 bytes of the object keep what the storage held. *)
Lemma of_sock_address_Ok (this : bytes) (sa : SockAddress.sock_address) :
  length this = sizeof_sockaddr_in6 ->
  (sizeof_sockaddr_in <= length (SockAddress.addr_ sa))%nat ->
  of_sock_address this sa
  = Ok (take sizeof_sockaddr_in (SockAddress.addr_ sa)
        ++ drop sizeof_sockaddr_in this).
Proof.
  intros Ht Ha. unfold of_sock_address, SockAddress.sockaddr_ptr.
  apply memcpy_Ok; [|exact Ha].
  rewrite Ht. cbv [sizeof_sockaddr_in sizeof_sockaddr_in6]. lia.
Qed.

Lemma to_sock_address_Ok (tmp a : bytes) :
  length tmp = sizeof_sockaddr_storage -> length a = sizeof_sockaddr_in6 ->
  to_sock_address tmp a
  = Ok {| SockAddress.addr_ := a ++ drop sizeof_sockaddr_in6 tmp;
          SockAddress.sz_ := sizeof_sockaddr_in6 |}.
Proof.
  intros Ht Ha. unfold to_sock_address, SockAddress.make, sockaddr_ptr, size.
  rewrite memcpy_Ok
    by (rewrite ?Ht, ?Ha; cbv [sizeof_sockaddr_in6 sizeof_sockaddr_storage]; lia).
  cbn [res_bind]. now rewrite take_ge by lia.
Qed.

Lemma sock_address_round_trip (tmp this a : bytes) :
  length tmp = sizeof_sockaddr_storage ->
  length this = sizeof_sockaddr_in6 -> length a = sizeof_sockaddr_in6 ->
  (do sa <- to_sock_address tmp a ; of_sock_address this sa)
  = Ok (take sizeof_sockaddr_in a ++ drop sizeof_sockaddr_in this).
Proof.
  intros Ht Hs Ha. rewrite to_sock_address_Ok by assumption. cbn [res_bind].
  rewrite of_sock_address_Ok.
  - cbn [SockAddress.addr_]. f_equal. f_equal. apply take_app_le.
    rewrite Ha. cbv [sizeof_sockaddr_in sizeof_sockaddr_in6]. lia.
  - exact Hs.
  - cbn [SockAddress.addr_]. rewrite length_app, Ha.
    cbv [sizeof_sockaddr_in sizeof_sockaddr_in6]. lia.
Qed.

(** The constructor from a [sockaddr_storage] asks [memcpy] for 128 bytes
    into an object of 28. *)
Lemma of_sockaddr_storage_overflow (this addr : bytes) :
  length this = sizeof_inet6_address -> of_sockaddr_storage this addr = UB.
Proof.
  intros Ht. unfold of_sockaddr_storage. apply memcpy_overflow.
  rewrite Ht. cbv [sizeof_inet6_address sizeof_sockaddr_in6 sizeof_sockaddr_storage].
  lia.
Qed.

Lemma address_length (a : bytes) :
  length a = sizeof_sockaddr_in6 -> length (address a) = sizeof_in6_addr.
Proof.
  intros Ha. unfold address, field. rewrite length_take, length_drop, Ha.
  cbv [sizeof_sockaddr_in6 sizeof_in6_addr offsetof_sin6_addr]. lia.
Qed.

End Inet6AddressFacts.

(** ** acceptor *)
Section AcceptorFacts.
Import Platform Socket.
Context {kernel : Type} (os : native kernel).

Lemma sock_address_make_Ok (tmp addr : bytes) (len : nat) :
  length tmp = sizeof_sockaddr_storage ->
  (len <= length addr)%nat -> (len <= sizeof_sockaddr_storage)%nat ->
  SockAddress.make tmp addr len
  = Ok {| SockAddress.addr_ := take len addr ++ drop len tmp;
          SockAddress.sz_ := len |}.
Proof.
  intros Ht Ha Hl. unfold SockAddress.make.
  now rewrite memcpy_Ok by lia.
Qed.

(** A failed [::bind] changes the last-error slot and nothing else. *)
Lemma bind_failure (tmp addr : bytes) (len : nat)
  (a : Acceptor.acceptor) (k k1 : kernel) (ret : Z) :
  os_bind os k (handle (Acceptor.sock a)) addr len = (ret, k1) -> ret < 0 ->
  Acceptor.bind os tmp addr len a k
  = Ok (false,
        {| Acceptor.sock := {| handle_ := handle_ (Acceptor.sock a);
                               lastErr_ := get_last_error os k1 |};
           Acceptor.addr_ := Acceptor.addr_ a |},
        k1).
Proof.
  intros Hos Hret. unfold Acceptor.bind, check_ret_bool. rewrite Hos.
  destruct (Z.leb_spec 0 ret) as [?|_]; [lia|].
  destruct (Z.ltb_spec ret 0) as [_|?]; [reflexivity|lia].
Qed.

Lemma bind_success (tmp addr : bytes) (len : nat)
  (a : Acceptor.acceptor) (k k1 : kernel) (ret : Z) :
  os_bind os k (handle (Acceptor.sock a)) addr len = (ret, k1) -> 0 <= ret ->
  length tmp = sizeof_sockaddr_storage ->
  (len <= length addr)%nat -> (len <= sizeof_sockaddr_storage)%nat ->
  Acceptor.bind os tmp addr len a k
  = Ok (true,
        {| Acceptor.sock := {| handle_ := handle_ (Acceptor.sock a);
                               lastErr_ := 0 |};
           Acceptor.addr_ := {| SockAddress.addr_ := take len addr ++ drop len tmp;
                                SockAddress.sz_ := len |} |},
        k1).
Proof.
  intros Hos Hret Ht Ha Hl. unfold Acceptor.bind, check_ret_bool. rewrite Hos.
  destruct (Z.leb_spec 0 ret) as [_|?]; [|lia].
  destruct (Z.ltb_spec ret 0) as [?|_]; [lia|].
  now rewrite sock_address_make_Ok by assumption.
Qed.

Section Template.
Variable acc_default : bytes -> res bytes.
Variable acc_of_sock_address : bytes -> SockAddress.sock_address -> res bytes.

Lemma bind_t_failure (tmp tmp' addr : bytes) (len : nat)
  (a : AcceptorT.acceptor) (k k1 : kernel) (ret : Z) :
  os_bind os k (handle (AcceptorT.sock a)) addr len = (ret, k1) -> ret < 0 ->
  AcceptorT.bind os acc_of_sock_address tmp tmp' addr len a k
  = Ok (false,
        {| AcceptorT.sock := {| handle_ := handle_ (AcceptorT.sock a);
                                lastErr_ := get_last_error os k1 |};
           AcceptorT.addr_ := AcceptorT.addr_ a |},
        k1).
Proof.
  intros Hos Hret. unfold AcceptorT.bind, check_ret_bool. rewrite Hos.
  destruct (Z.leb_spec 0 ret) as [?|_]; [lia|].
  destruct (Z.ltb_spec ret 0) as [_|?]; [reflexivity|lia].
Qed.

Lemma bind_t_success (tmp tmp' addr v : bytes) (len : nat)
  (a : AcceptorT.acceptor) (k k1 : kernel) (ret : Z) :
  os_bind os k (handle (AcceptorT.sock a)) addr len = (ret, k1) -> 0 <= ret ->
  length tmp = sizeof_sockaddr_storage ->
  (len <= length addr)%nat -> (len <= sizeof_sockaddr_storage)%nat ->
  acc_of_sock_address tmp'
    {| SockAddress.addr_ := take len addr ++ drop len tmp;
       SockAddress.sz_ := len |} = Ok v ->
  AcceptorT.bind os acc_of_sock_address tmp tmp' addr len a k
  = Ok (true,
        {| AcceptorT.sock := {| handle_ := handle_ (AcceptorT.sock a);
                                lastErr_ := 0 |};
           AcceptorT.addr_ := v |},
        k1).
Proof.
  intros Hos Hret Ht Ha Hl Hv. unfold AcceptorT.bind, check_ret_bool.
  rewrite Hos.
  destruct (Z.leb_spec 0 ret) as [_|?]; [|lia].
  destruct (Z.ltb_spec ret 0) as [?|_]; [lia|].
  rewrite sock_address_make_Ok by assumption. cbn [res_bind].
  now rewrite Hv.
Qed.

(** Whatever [len] held, a defined [accept] wraps the descriptor the kernel
    returned and leaves the acceptor's handle and cached address alone. *)
Lemma accept_acceptor_unchanged (this_addr : bytes) (len0 : Z)
  (a a' : AcceptorT.acceptor) (k k' k1 : kernel) (s : socket)
  (addr peer : bytes) (ret : Z) :
  os_accept os k (handle (AcceptorT.sock a)) len0 = ((ret, peer), k1) ->
  AcceptorT.accept os acc_default this_addr len0 a k = Ok ((s, addr), a', k') ->
  s = stream_socket ret /\ k' = k1 /\
  handle (AcceptorT.sock a') = handle (AcceptorT.sock a) /\
  AcceptorT.addr_ a' = AcceptorT.addr_ a.
Proof.
  intros Hos. unfold AcceptorT.accept.
  destruct (acc_default this_addr) as [buf| |]; cbn [res_bind]; try discriminate.
  rewrite Hos.
  destruct (accept_copy_out buf peer len0 ret) as [buf1| |]; cbn [res_bind];
    try discriminate.
  unfold check_ret. intros [= <- <- <- <-]. now repeat split.
Qed.

(** The peer's address reaches the caller whole only when the value [len]
    happened to hold is at least its size. *)
Lemma accept_fills_address (this_addr buf : bytes) (len0 : Z)
  (a : AcceptorT.acceptor) (k k1 : kernel) (peer : bytes) (ret : Z) :
  os_accept os k (handle (AcceptorT.sock a)) len0 = ((ret, peer), k1) ->
  acc_default this_addr = Ok buf -> length buf = length peer ->
  0 <= ret -> Z.of_nat (length peer) <= len0 ->
  exists a',
    AcceptorT.accept os acc_default this_addr len0 a k
    = Ok ((stream_socket ret, peer), a', k1).
Proof.
  intros Hos Hd Hb Hret Hlen. unfold AcceptorT.accept.
  rewrite Hd. cbn [res_bind]. rewrite Hos. unfold accept_copy_out.
  destruct (Z.ltb_spec ret 0) as [?|_]; [lia|].
  rewrite Z.min_r, Nat2Z.id by lia.
  rewrite memcpy_whole by lia. cbn [res_bind]. unfold check_ret.
  eexists. reflexivity.
Qed.

End Template.

End AcceptorFacts.

(** ** The unit tests of [unix_address], run on the model *)
Section UnitTests.
Import Platform Examples.

(** "unix_address path constructor": the family is [AF_UNIX] and the path
    reads back. *)
Example test_path_constructor :
  exists a,
    UnixAddress.of_string (zeroed 110) (list_byte_of_string "/tmp/sock") = Ok a /\
    a = good_sockaddr_un /\
    UnixAddress.sun_family a = Ok AF_UNIX /\
    UnixAddress.path a = Ok (list_byte_of_string "/tmp/sock").
Proof. eexists. repeat split; reflexivity. Qed.

(** "sockaddr conversions": a path of 9 characters and its terminator fit
    in the 14 bytes the generic constructor copies. *)
Example test_sockaddr_conversions :
  exists a,
    UnixAddress.of_sockaddr (replicate 110 xff)
      (UnixAddress.sockaddr_ptr good_sockaddr_un) = Ok a /\
    UnixAddress.sun_family a = Ok AF_UNIX /\
    UnixAddress.path a = Ok (list_byte_of_string "/tmp/sock").
Proof. eexists. repeat split; reflexivity. Qed.

(** "reject bad sockaddr_un". *)
Example test_reject_bad_sockaddr_un :
  UnixAddress.of_sockaddr_un (zeroed 110) bad_sockaddr_un
  = Throw (invalid_argument "Not initialized as a UNIX-domain address").
Proof. reflexivity. Qed.

Example loopback6_fields :
  Inet6Address.sin6_family loopback6 = Ok AF_INET6 /\
  Inet6Address.port loopback6 = Ok 5000 /\
  Inet6Address.address loopback6 = replicate 15 NUL ++ [x01] /\
  length loopback6 = sizeof_sockaddr_in6.
Proof. repeat split; reflexivity. Qed.

End UnitTests.

(** ** Constructors that stay within the object *)
Section Bounds.
Import Platform.

(** Every constructor other than the one from a [sockaddr_storage] yields,
    when it yields, an object of the size of its storage. *)
Lemma constructors_keep_size (this addr r : bytes)
  (sa : SockAddress.sock_address) :
  (UnixAddress.of_sockaddr this addr = Ok r -> length r = length this) /\
  (UnixAddress.of_sockaddr_un this addr = Ok r -> length r = length this) /\
  (Inet6Address.of_sockaddr_in6 this addr = Ok r -> length r = length this) /\
  (Inet6Address.of_sock_address this sa = Ok r -> length r = length this) /\
  (Inet6Address.copy this addr = Ok r -> length r = length this).
Proof.
  repeat split.
  - unfold UnixAddress.of_sockaddr.
    destruct (load_u16 addr 0) as [d| |]; cbn [res_bind]; try discriminate.
    destruct (negb (d =? AF_UNIX)); [discriminate|]. apply memcpy_length.
  - unfold UnixAddress.of_sockaddr_un.
    destruct (UnixAddress.sun_family addr) as [d| |]; cbn [res_bind];
      try discriminate.
    destruct (negb (d =? AF_UNIX)); [discriminate|]. apply memcpy_length.
  - apply memcpy_length.
  - apply memcpy_length.
  - apply memcpy_length.
Qed.

End Bounds.

(** ** Streams and texts *)
Section StreamFacts.
Import Platform.

Lemma padded_narrow (os : Ostream.ostream) (s : bytes) :
  Ostream.width os <= Z.of_nat (length s) -> Ostream.padded os s = s.
Proof.
  intros Hw. unfold Ostream.padded.
  replace (Z.to_nat (Ostream.width os - Z.of_nat (length s))) with 0%nat by lia.
  cbn [replicate]. destruct (Ostream.adjust_left os); [apply app_nil_r|reflexivity].
Qed.

Lemma padded_length (os : Ostream.ostream) (s : bytes) :
  Z.of_nat (length (Ostream.padded os s))
  = Z.max (Ostream.width os) (Z.of_nat (length s)).
Proof.
  unfold Ostream.padded.
  destruct (Ostream.adjust_left os);
    rewrite length_app, length_replicate; lia.
Qed.

(** On a good stream the inserter writes the padded literal and then the
    C string of [sun_path], and resets the width. *)
Lemma insert_good (lib : Ostream.ostream -> bool) (os : Ostream.ostream)
  (a p : bytes) :
  cstring (UnixAddress.sun_path a) = Ok p ->
  Ostream.good os = true ->
  UnixAddress.insert lib os a
  = Ok {| Ostream.out :=
            Ostream.out os
            ++ Ostream.padded os (list_byte_of_string "unix:") ++ p;
          Ostream.width := 0;
          Ostream.fill := Ostream.fill os;
          Ostream.adjust_left := Ostream.adjust_left os;
          Ostream.rdstate := Ostream.rdstate os;
          Ostream.exceptions := Ostream.exceptions os |}.
Proof.
  intros Hp Hg. unfold UnixAddress.insert, Ostream.insert_cstr.
  change (cstring (c_str (list_byte_of_string "unix:")))
    with (Ok (list_byte_of_string "unix:")).
  cbn [res_bind]. unfold Ostream.insert_chars at 1. rewrite Hg.
  cbn [res_bind]. rewrite Hp. cbn [res_bind].
  unfold Ostream.insert_chars, Ostream.good in *. cbn [Ostream.rdstate].
  rewrite Hg. f_equal. f_equal. cbn [Ostream.out].
  rewrite <- app_assoc. do 2 f_equal. apply padded_narrow.
  cbn [Ostream.width]. lia.
Qed.

Lemma setstate_keeps_out (bits : Z) (os os' : Ostream.ostream) :
  Ostream.setstate bits os = Ok os' ->
  Ostream.out os' = Ostream.out os /\
  Ostream.rdstate os' = Z.lor (Ostream.rdstate os) bits.
Proof.
  unfold Ostream.setstate.
  destruct (Z.land _ _ =? 0); [|discriminate].
  intros [= <-]. split; reflexivity.
Qed.

Lemma setstate_failbit_not_good (os os' : Ostream.ostream) :
  Ostream.setstate Ostream.failbit os = Ok os' -> Ostream.good os' = false.
Proof.
  intros H. apply setstate_keeps_out in H. destruct H as [_ H].
  unfold Ostream.good. rewrite H.
  destruct (Z.eqb_spec (Z.lor (Ostream.rdstate os) Ostream.failbit)
              Ostream.goodbit) as [E|_]; [|reflexivity].
  apply Z.lor_eq_0_iff in E. destruct E as [_ E]. discriminate E.
Qed.

Lemma setstate_failbit_twice (os os' : Ostream.ostream) :
  Ostream.setstate Ostream.failbit os = Ok os' ->
  Ostream.setstate Ostream.failbit os' = Ok os'.
Proof.
  unfold Ostream.setstate.
  destruct (Z.land _ _ =? 0) eqn:E; [|discriminate].
  intros [= <-]. cbn [Ostream.rdstate Ostream.exceptions Ostream.out
                       Ostream.width Ostream.fill Ostream.adjust_left].
  rewrite <- Z.lor_assoc, Z.lor_diag. now rewrite E.
Qed.

(** On a stream that is not good the inserter writes nothing: it leaves
    the stream as it is or does what [setstate(failbit)] does, as the
    library chooses. *)
Lemma insert_not_good (lib : Ostream.ostream -> bool) (os : Ostream.ostream)
  (a p : bytes) :
  cstring (UnixAddress.sun_path a) = Ok p ->
  Ostream.good os = false ->
  UnixAddress.insert lib os a = Ok os \/
  UnixAddress.insert lib os a = Ostream.setstate Ostream.failbit os.
Proof.
  intros Hp Hg.
  assert (Hfail : forall (s : bytes) (o : Ostream.ostream),
            Ostream.good o = false ->
            Ostream.insert_chars lib s o
            = if lib o then Ostream.setstate Ostream.failbit o else Ok o).
  { intros s o Ho. unfold Ostream.insert_chars. now rewrite Ho. }
  unfold UnixAddress.insert, Ostream.insert_cstr.
  change (cstring (c_str (list_byte_of_string "unix:")))
    with (Ok (list_byte_of_string "unix:")).
  cbn [res_bind]. rewrite (Hfail _ os Hg).
  destruct (lib os) eqn:Hl.
  - right.
    destruct (Ostream.setstate Ostream.failbit os) as [os1| |] eqn:Hs;
      cbn [res_bind]; try reflexivity.
    rewrite Hp. cbn [res_bind].
    rewrite (Hfail _ os1 (setstate_failbit_not_good os os1 Hs)).
    destruct (lib os1); [|reflexivity].
    now apply setstate_failbit_twice with os.
  - left. cbn [res_bind]. rewrite Hp. cbn [res_bind].
    now rewrite (Hfail _ os Hg), Hl.
Qed.

Lemma insert_not_good_out (lib : Ostream.ostream -> bool)
  (os os' : Ostream.ostream) (a p : bytes) :
  cstring (UnixAddress.sun_path a) = Ok p ->
  Ostream.good os = false ->
  UnixAddress.insert lib os a = Ok os' ->
  Ostream.out os' = Ostream.out os.
Proof.
  intros Hp Hg Hi.
  destruct (insert_not_good lib os a p Hp Hg) as [H|H]; rewrite H in Hi.
  - now injection Hi as <-.
  - now apply setstate_keeps_out in Hi.
Qed.

(** When [sun_path] holds no NUL the inserter reads past it, on every
    stream on which the insertion of the literal returns. *)
Lemma insert_unterminated (lib : Ostream.ostream -> bool)
  (os : Ostream.ostream) (a : bytes) :
  no_NUL (UnixAddress.sun_path a) ->
  Ostream.good os = true \/ Ostream.exceptions os = 0 ->
  UnixAddress.insert lib os a = UB.
Proof.
  intros Hn Hos. unfold UnixAddress.insert, Ostream.insert_cstr.
  change (cstring (c_str (list_byte_of_string "unix:")))
    with (Ok (list_byte_of_string "unix:")).
  cbn [res_bind]. rewrite (cstring_unterminated _ Hn).
  unfold Ostream.insert_chars.
  destruct (Ostream.good os) eqn:Hg; [reflexivity|].
  destruct Hos as [?|He]; [discriminate|].
  destruct (lib os); [|reflexivity].
  unfold Ostream.setstate. rewrite He, Z.land_0_r. reflexivity.
Qed.

(** With an unterminated [sun_path] the inserter never returns a stream. *)
Lemma insert_unterminated_outcome (lib : Ostream.ostream -> bool)
  (os : Ostream.ostream) (a : bytes) :
  no_NUL (UnixAddress.sun_path a) ->
  UnixAddress.insert lib os a = UB \/
  UnixAddress.insert lib os a = Throw ios_base_failure.
Proof.
  intros Hn. unfold UnixAddress.insert, Ostream.insert_cstr.
  change (cstring (c_str (list_byte_of_string "unix:")))
    with (Ok (list_byte_of_string "unix:")).
  cbn [res_bind]. rewrite (cstring_unterminated _ Hn).
  unfold Ostream.insert_chars.
  destruct (Ostream.good os); [left; reflexivity|].
  destruct (lib os); [|left; reflexivity].
  unfold Ostream.setstate.
  destruct (Z.land _ _ =? 0); [left|right]; reflexivity.
Qed.

Lemma Z_of_byte_range (b : byte) : 0 <= Z_of_byte b <= 255.
Proof.
  unfold Z_of_byte. pose proof (Byte.to_N_bounded b). lia.
Qed.

(** [port()] is defined on every object of 28 bytes and is a 16-bit
    number. *)
Lemma port_range (a : bytes) :
  length a = sizeof_sockaddr_in6 ->
  exists p, Inet6Address.port a = Ok p /\ 0 <= p < 65536.
Proof.
  intros Ha. unfold Inet6Address.port, load_u16_be, field.
  destruct a as [|b0 [|b1 [|hi [|lo rest]]]]; try discriminate Ha.
  eexists. split; [reflexivity|].
  pose proof (Z_of_byte_range hi). pose proof (Z_of_byte_range lo). lia.
Qed.

Lemma until_bracket_app (a rest : bytes) :
  Forall (fun c => c <> "]"%byte) a ->
  Inet6Address.until_bracket (a ++ "]"%byte :: rest) = Some (a, rest).
Proof.
  induction 1 as [|c a Hc _ IH]; cbn [app Inet6Address.until_bracket].
  - reflexivity.
  - destruct (Byte.eqb c "]") eqn:E.
    + apply Byte.byte_dec_bl in E. contradiction.
    + now rewrite IH.
Qed.

Lemma parse_decimal_decimal (p : Z) :
  0 <= p -> Inet6Address.parse_decimal (Inet6Address.decimal p) = Some p.
Proof.
  intros Hp. unfold Inet6Address.parse_decimal, Inet6Address.decimal.
  rewrite string_of_list_byte_of_string, NilEmpty.usu.
  rewrite DecimalN.Unsigned.of_to. f_equal. lia.
Qed.

End StreamFacts.

(** * The claims *)
Section Claims.
Import Platform Examples.

(** C1, as stated, fails for [inet6_address]: a [sockaddr_in6] whose family
    field says [AF_INET] is accepted and copied as it is. *)
Lemma C1_counterexample :
  Inet6Address.sin6_family in6_tagged_inet = Ok AF_INET /\
  AF_INET <> Inet6Address.ADDRESS_FAMILY /\
  Inet6Address.of_sockaddr_in6 (zeroed 28) in6_tagged_inet = Ok in6_tagged_inet.
Proof.
  split; [reflexivity|]. split; [discriminate|]. reflexivity.
Qed.

(** C1 (amended): both [unix_address] constructors from a native structure
    throw [invalid_argument] when the family field differs from [AF_UNIX],
    before anything is copied, and succeed when it is [AF_UNIX] (the generic
    one copying [sizeof(sockaddr)] bytes, the specific one the whole
    [sockaddr_un]); the [inet6_address] constructor from a [sockaddr_in6]
    makes no check and copies the structure whatever its family. *)
Theorem C1_family_discriminator (this addr this6 addr6 : bytes) (fam : Z) :
  load_u16 addr 0 = Ok fam ->
  length this = sizeof_sockaddr_un ->
  (sizeof_sockaddr_un <= length addr)%nat ->
  length this6 = sizeof_sockaddr_in6 ->
  (sizeof_sockaddr_in6 <= length addr6)%nat ->
  (fam <> AF_UNIX ->
     UnixAddress.of_sockaddr this addr
     = Throw (invalid_argument "Not a UNIX-domain address") /\
     UnixAddress.of_sockaddr_un this addr
     = Throw (invalid_argument "Not initialized as a UNIX-domain address")) /\
  (fam = AF_UNIX ->
     UnixAddress.of_sockaddr this addr
     = Ok (take sizeof_sockaddr addr ++ drop sizeof_sockaddr this) /\
     UnixAddress.of_sockaddr_un this addr = Ok (take sizeof_sockaddr_un addr)) /\
  Inet6Address.of_sockaddr_in6 this6 addr6 = Ok (take sizeof_sockaddr_in6 addr6).
Proof.
  intros Hf Ht Ha Ht6 Ha6. split; [|split].
  - intros Hne. split.
    + now apply of_sockaddr_rejects with fam.
    + now apply of_sockaddr_un_rejects with fam.
  - intros ->. split.
    + apply of_sockaddr_accepts; try assumption.
      revert Ha. cbv [sizeof_sockaddr sizeof_sockaddr_un]. lia.
    + now apply of_sockaddr_un_accepts.
  - now apply of_sockaddr_in6_Ok.
Qed.

(** The unit test "reject bad sockaddr_un", its accepted counterpart, and
    the [sockaddr_in6] tagged [AF_INET]. *)
Lemma C1_family_discriminator_witness :
  UnixAddress.of_sockaddr_un (zeroed 110) bad_sockaddr_un
  = Throw (invalid_argument "Not initialized as a UNIX-domain address") /\
  UnixAddress.of_sockaddr_un (zeroed 110) good_sockaddr_un
  = Ok (take sizeof_sockaddr_un good_sockaddr_un) /\
  Inet6Address.of_sockaddr_in6 (zeroed 28) in6_tagged_inet
  = Ok (take sizeof_sockaddr_in6 in6_tagged_inet).
Proof.
  assert (L110 : forall l : bytes,
            (sizeof_sockaddr_un <=? length l)%nat = true ->
            (sizeof_sockaddr_un <= length l)%nat)
    by (intros l; apply Nat.leb_le).
  assert (L28 : (sizeof_sockaddr_in6 <= length in6_tagged_inet)%nat)
    by (apply Nat.leb_le; reflexivity).
  pose proof (C1_family_discriminator (zeroed 110) bad_sockaddr_un
                (zeroed 28) in6_tagged_inet 2
                eq_refl eq_refl (L110 bad_sockaddr_un eq_refl) eq_refl L28)
    as (Hbad & _ & H6).
  pose proof (C1_family_discriminator (zeroed 110) good_sockaddr_un
                (zeroed 28) in6_tagged_inet 1
                eq_refl eq_refl (L110 good_sockaddr_un eq_refl) eq_refl L28)
    as (_ & Hgood & _).
  split; [apply Hbad; discriminate|]. split; [apply Hgood; reflexivity|exact H6].
Defined.

(** C2, at the failing inputs.  The IPv6 endpoint [::1] port 5000, taken
    through [to_sock_address] and back through the constructor from a
    [sock_address], comes back with only its first 16 bytes, the rest being
    what the new object's storage held: the host address is no longer
    [::1].  A [unix_address] with a path of 25 characters, rebuilt from its
    own [sockaddr_ptr()], keeps 14 characters of the path. *)
Theorem C2_round_trip_at_failing_inputs :
  (exists sa a',
     Inet6Address.to_sock_address (zeroed 128) loopback6 = Ok sa /\
     Inet6Address.of_sock_address (zeroed 28) sa = Ok a' /\
     a' = take sizeof_sockaddr_in loopback6 ++ zeroed 12 /\
     a' <> loopback6 /\
     Inet6Address.address a' <> Inet6Address.address loopback6) /\
  (exists u u',
     UnixAddress.of_string (zeroed 110) long_path = Ok u /\
     UnixAddress.of_sockaddr (zeroed 110) (UnixAddress.sockaddr_ptr u) = Ok u' /\
     u' = take sizeof_sockaddr u ++ zeroed 94 /\
     u' <> u /\
     UnixAddress.path u = Ok long_path /\
     UnixAddress.path u' = Ok (take 14 long_path)).
Proof.
  split.
  - eexists. eexists. split; [vm_compute; reflexivity|].
    split; [vm_compute; reflexivity|].
    split; [reflexivity|]. split; vm_compute; discriminate.
  - eexists. eexists. split; [vm_compute; reflexivity|].
    split; [vm_compute; reflexivity|].
    split; [reflexivity|]. split; [vm_compute; discriminate|].
    split; vm_compute; reflexivity.
Qed.

(** C3, on the code: the constructor of [inet6_address] from a
    [sockaddr_storage] copies [sizeof(sockaddr_storage)] bytes, more than
    the object has, for every source and every object storage of the right
    size; the copy leaves the object. *)
Theorem C3_storage_constructor_overflows (this addr : bytes) :
  length this = Inet6Address.sizeof_inet6_address ->
  (Inet6Address.sizeof_inet6_address < sizeof_sockaddr_storage)%nat /\
  Inet6Address.of_sockaddr_storage this addr = UB.
Proof.
  intros Ht. split.
  - cbv [Inet6Address.sizeof_inet6_address sizeof_sockaddr_in6
         sizeof_sockaddr_storage]. lia.
  - now apply of_sockaddr_storage_overflow.
Qed.

Lemma C3_storage_constructor_overflows_witness :
  Inet6Address.of_sockaddr_storage (zeroed 28) storage6 = UB.
Proof.
  exact (proj2 (C3_storage_constructor_overflows (zeroed 28) storage6 eq_refl)).
Defined.

(** C7, as stated, fails on a string with a NUL inside: of the three
    characters [a], NUL, [b] only the first reaches [sun_path]. *)
Lemma C7_counterexample :
  (length nul_path < UnixAddress.MAX_PATH_NAME)%nat /\
  exists a,
    UnixAddress.of_string (zeroed 110) nul_path = Ok a /\
    UnixAddress.sun_path a
    <> nul_path ++ replicate (UnixAddress.MAX_PATH_NAME - length nul_path) NUL /\
    UnixAddress.sun_path a = [x61] ++ replicate 107 NUL.
Proof.
  split; [apply Nat.ltb_lt; reflexivity|].
  eexists. split; [vm_compute; reflexivity|].
  split; [vm_compute; discriminate|reflexivity].
Qed.

(** C7 (amended): for every string, the path constructor is defined, stays
    within the object, sets the family to [AF_UNIX] and fills the 108 bytes
    of [sun_path] with the characters of the string that precede its first
    NUL, cut at [MAX_PATH_NAME], followed by NULs.  For a string without NUL
    shorter than [MAX_PATH_NAME] the stored path is the string and the rest
    of [sun_path] is zero; for a longer one it is the first [MAX_PATH_NAME]
    characters, with no terminator. *)
Theorem C7_path_constructor (this path : bytes) :
  length this = sizeof_sockaddr_un ->
  exists a,
    UnixAddress.of_string this path = Ok a /\
    length a = sizeof_sockaddr_un /\
    UnixAddress.sun_family a = Ok AF_UNIX /\
    length (UnixAddress.sun_path a) = UnixAddress.MAX_PATH_NAME /\
    UnixAddress.sun_path a
    = take UnixAddress.MAX_PATH_NAME (until_NUL path)
      ++ replicate (UnixAddress.MAX_PATH_NAME - length (until_NUL path)) NUL /\
    (no_NUL path -> (length path < UnixAddress.MAX_PATH_NAME)%nat ->
       UnixAddress.sun_path a
       = path ++ replicate (UnixAddress.MAX_PATH_NAME - length path) NUL /\
       UnixAddress.path a = Ok path) /\
    (no_NUL path -> (UnixAddress.MAX_PATH_NAME <= length path)%nat ->
       UnixAddress.sun_path a = take UnixAddress.MAX_PATH_NAME path).
Proof.
  intros Hlen. eexists. split; [apply of_string_Ok; exact Hlen|].
  set (p := take UnixAddress.MAX_PATH_NAME (until_NUL path)
            ++ replicate (UnixAddress.MAX_PATH_NAME - length (until_NUL path)) NUL).
  assert (Hp : length p = sizeof_sun_path).
  { unfold p. rewrite length_app, length_take, length_replicate.
    cbv [UnixAddress.MAX_PATH_NAME sizeof_sun_path]. lia. }
  assert (Hs : UnixAddress.sun_path ([x01; x00] ++ p) = p)
    by (apply sun_path_tagged; exact Hp).
  split; [|split; [|split; [|split; [|split]]]].
  - cbn [app length]. rewrite Hp. reflexivity.
  - reflexivity.
  - rewrite Hs. exact Hp.
  - exact Hs.
  - intros Hn Hlt.
    assert (Hpe : p = path ++ replicate (UnixAddress.MAX_PATH_NAME - length path) NUL).
    { unfold p. rewrite until_NUL_no_NUL by exact Hn. now rewrite take_ge by lia. }
    split; [now rewrite Hs|].
    unfold UnixAddress.path. rewrite Hs, Hpe.
    replace (UnixAddress.MAX_PATH_NAME - length path)%nat
      with (S (UnixAddress.MAX_PATH_NAME - length path - 1)) by lia.
    cbn [replicate]. now apply cstring_terminated.
  - intros Hn Hge. rewrite Hs. unfold p.
    rewrite until_NUL_no_NUL by exact Hn.
    replace (UnixAddress.MAX_PATH_NAME - length path)%nat with 0%nat by lia.
    cbn [replicate]. now rewrite app_nil_r.
Qed.

Lemma C7_path_constructor_witness :
  exists a,
    UnixAddress.of_string (zeroed 110) (list_byte_of_string "/tmp/sock") = Ok a /\
    UnixAddress.sun_family a = Ok AF_UNIX /\
    UnixAddress.path a = Ok (list_byte_of_string "/tmp/sock").
Proof.
  destruct (C7_path_constructor (zeroed 110) (list_byte_of_string "/tmp/sock")
              eq_refl) as (a & Ha & _ & Hf & _ & _ & Hshort & _).
  exists a. split; [exact Ha|]. split; [exact Hf|].
  apply Hshort.
  - repeat constructor; discriminate.
  - apply Nat.ltb_lt. reflexivity.
Defined.

(** C9, as stated, fails in three ways.  An address whose [sun_path]
    holds no NUL, such as the one the path constructor builds from 108
    characters, makes the inserter read [sun_path] as a C string and leave
    the array.  On a stream with a field width of 8 the literal is padded:
    three spaces come before ["unix:"].  On a stream whose [failbit] is set
    nothing is written. *)
Lemma C9_counterexample :
  (exists u,
     UnixAddress.of_string (zeroed 110) full_path = Ok u /\
     UnixAddress.sun_path u = full_path /\
     UnixAddress.insert sets_when_bad fresh_stream u = UB) /\
  (exists os',
     UnixAddress.insert sets_when_bad wide_stream good_sockaddr_un = Ok os' /\
     Ostream.out os' = list_byte_of_string "   unix:/tmp/sock" /\
     Ostream.out os' <> list_byte_of_string "unix:/tmp/sock") /\
  (exists os',
     UnixAddress.insert sets_when_bad failed_stream good_sockaddr_un = Ok os' /\
     Ostream.out os' = []) /\
  (exists os',
     UnixAddress.insert always_sets failed_stream good_sockaddr_un = Ok os' /\
     Ostream.out os' = []).
Proof.
  split; [|split; [|split]].
  - eexists. split; [vm_compute; reflexivity|].
    split; vm_compute; reflexivity.
  - eexists. split; [vm_compute; reflexivity|].
    split; [reflexivity|vm_compute; discriminate].
  - eexists. split; [vm_compute; reflexivity|reflexivity].
  - eexists. split; [vm_compute; reflexivity|reflexivity].
Qed.

(** C9 (amended): for every [unix_address] whose [sun_path] holds a NUL,
    the stored path is the bytes of [sun_path] before its first NUL, which
    is what [path()] reports.  Streaming the address onto a stream in good
    state appends the literal ["unix:"], padded with the fill character to
    the field width of the stream, immediately followed by the stored path,
    and resets the width; with a field width of at most 5 what is appended
    is exactly ["unix:"] followed by the stored path.  On a stream that is
    not in good state no character is written: the stream is left as it is
    or undergoes [setstate(failbit)], as the stream library chooses.  The
    text of an IPv6 address is an opening bracket, the text of the host
    address, a closing bracket, a colon and the port in decimal; as the text
    of a host address holds no closing bracket, the host text and the port,
    a number below 65536, read back from it. *)
Theorem C9_textual_form (lib : Ostream.ostream -> bool)
  (os : Ostream.ostream) (a a6 : bytes) (inet_ntop : bytes -> bytes) :
  has_NUL (UnixAddress.sun_path a) = true ->
  length a6 = sizeof_sockaddr_in6 ->
  (forall x, Forall (fun c => c <> "]"%byte) (inet_ntop x)) ->
  (exists p r,
     UnixAddress.sun_path a = p ++ NUL :: r /\
     no_NUL p /\
     UnixAddress.path a = Ok p /\
     (Ostream.good os = true ->
        UnixAddress.insert lib os a
        = Ok {| Ostream.out :=
                  Ostream.out os
                  ++ Ostream.padded os (list_byte_of_string "unix:") ++ p;
                Ostream.width := 0;
                Ostream.fill := Ostream.fill os;
                Ostream.adjust_left := Ostream.adjust_left os;
                Ostream.rdstate := Ostream.rdstate os;
                Ostream.exceptions := Ostream.exceptions os |}) /\
     (Ostream.good os = true -> Ostream.width os <= 5 ->
        UnixAddress.insert lib os a
        = Ok {| Ostream.out :=
                  Ostream.out os ++ list_byte_of_string "unix:" ++ p;
                Ostream.width := 0;
                Ostream.fill := Ostream.fill os;
                Ostream.adjust_left := Ostream.adjust_left os;
                Ostream.rdstate := Ostream.rdstate os;
                Ostream.exceptions := Ostream.exceptions os |}) /\
     (Ostream.good os = false ->
        (UnixAddress.insert lib os a = Ok os \/
         UnixAddress.insert lib os a = Ostream.setstate Ostream.failbit os) /\
        forall os', UnixAddress.insert lib os a = Ok os' ->
                    Ostream.out os' = Ostream.out os)) /\
  (exists port s,
     Inet6Address.port a6 = Ok port /\
     0 <= port < 65536 /\
     Inet6Address.to_string inet_ntop a6 = Ok s /\
     s = list_byte_of_string "[" ++ inet_ntop (Inet6Address.address a6)
         ++ list_byte_of_string "]:" ++ Inet6Address.decimal port /\
     Inet6Address.parse_text s
     = Some (inet_ntop (Inet6Address.address a6), port)).
Proof.
  intros Hn H6 Hntop. split.
  - destruct (has_NUL_cstring _ Hn) as (p & r & Hsp & Hc).
    destruct (cstring_Ok_inv _ _ Hc) as [Hp _].
    exists p, r. split; [exact Hsp|]. split; [exact Hp|]. split; [exact Hc|].
    split; [|split].
    + intros Hg. now apply insert_good.
    + intros Hg Hw. rewrite (insert_good lib os a p Hc Hg).
      rewrite padded_narrow; [reflexivity|].
      change (length (list_byte_of_string "unix:")) with 5%nat. lia.
    + intros Hg. split; [now apply insert_not_good with p|].
      intros os' Hi. now apply insert_not_good_out with lib a p.
  - destruct (port_range a6 H6) as (port & Hport & Hrange).
    exists port. eexists. split; [exact Hport|]. split; [exact Hrange|].
    unfold Inet6Address.to_string. rewrite Hport. cbn [res_bind].
    split; [reflexivity|]. split; [reflexivity|].
    change (list_byte_of_string "[") with ["["%byte].
    change (list_byte_of_string "]:") with ["]"%byte; ":"%byte].
    cbn [app Inet6Address.parse_text Byte.eqb].
    change (Byte.eqb "[" "[") with true. cbn iota.
    rewrite until_bracket_app by apply Hntop.
    change (Byte.eqb ":" ":") with true. cbn iota.
    rewrite parse_decimal_decimal by lia. reflexivity.
Qed.

(** The address of the unit tests on a fresh stream, and [::1] port 5000
    with the host text ["::1"]. *)
Lemma C9_textual_form_witness :
  UnixAddress.insert sets_when_bad fresh_stream good_sockaddr_un
  = Ok {| Ostream.out := list_byte_of_string "unix:/tmp/sock";
          Ostream.width := 0;
          Ostream.fill := x20;
          Ostream.adjust_left := false;
          Ostream.rdstate := Ostream.goodbit;
          Ostream.exceptions := 0 |} /\
  Inet6Address.parse_text (list_byte_of_string "[::1]:5000")
  = Some (list_byte_of_string "::1", 5000).
Proof.
  assert (Hntop : forall x : bytes,
            Forall (fun c => c <> "]"%byte) (list_byte_of_string "::1"))
    by (intros _; repeat constructor; discriminate).
  destruct (C9_textual_form sets_when_bad fresh_stream good_sockaddr_un
              loopback6 (fun _ => list_byte_of_string "::1")
              eq_refl eq_refl Hntop)
    as [(p & r & Hsp & Hp & Hpath & _ & Hplain & _)
        (port & s & Hport & _ & _ & Hs & Hparse)].
  split.
  - rewrite (Hplain eq_refl ltac:(cbn; lia)).
    assert (Hc : Ok p = Ok (list_byte_of_string "/tmp/sock"))
      by (rewrite <- Hpath; reflexivity).
    injection Hc as ->. reflexivity.
  - assert (Hq : Ok port = Ok 5000) by (rewrite <- Hport; reflexivity).
    injection Hq as ->. subst s. exact Hparse.
Defined.

(** C8: on two [inet6_address] objects, [operator==] is true exactly when
    their 28 bytes agree; it is reflexive and symmetric, [operator!=] is its
    negation, and a copy-constructed address, wherever it is stored,
    compares equal to its source in both orders. *)
Theorem C8_equality_is_bitwise (h : Inet6Address.store)
  (l r : Inet6Address.loc) (a b : bytes) :
  h !! l = Some a -> h !! r = Some b ->
  length a = Inet6Address.sizeof_inet6_address ->
  length b = Inet6Address.sizeof_inet6_address ->
  (exists e,
     Inet6Address.eq_op h l r = Ok e /\
     (e = true <-> a = b) /\
     Inet6Address.eq_op h r l = Ok e /\
     Inet6Address.ne_op h l r = Ok (negb e)) /\
  Inet6Address.eq_op h l l = Ok true /\
  (forall (this : bytes) (l' : Inet6Address.loc),
     length this = Inet6Address.sizeof_inet6_address -> l' <> l ->
     exists c,
       Inet6Address.copy this a = Ok c /\
       Inet6Address.eq_op (<[l' := c]> h) l' l = Ok true /\
       Inet6Address.eq_op (<[l' := c]> h) l l' = Ok true).
Proof.
  intros Hl Hr Ha Hb.
  assert (Hcmp : forall x y : bytes,
    length x = Inet6Address.sizeof_inet6_address ->
    length y = Inet6Address.sizeof_inet6_address ->
    exists c, memcmp x y Inet6Address.sizeof_inet6_address = Ok c
              /\ (c = 0 <-> x = y)).
  { intros x y Hx Hy.
    destruct (memcmp_spec Inet6Address.sizeof_inet6_address x y) as (c & Hc & Hi);
      [lia|lia|].
    exists c. split; [exact Hc|]. now rewrite Hi, !take_ge by lia. }
  split; [|split].
  - unfold Inet6Address.ne_op, Inet6Address.eq_op, Inet6Address.deref.
    destruct (Z.eqb_spec l r) as [->|Hne].
    + rewrite Z.eqb_refl. exists true. cbn [res_bind negb].
      repeat split; try reflexivity. congruence.
    + destruct (Z.eqb_spec r l) as [->|_]; [contradiction|].
      rewrite Hl, Hr. cbn [res_bind].
      destruct (Hcmp a b Ha Hb) as (c & Hc & Hi).
      destruct (Hcmp b a Hb Ha) as (c' & Hc' & Hi').
      rewrite Hc, Hc'. cbn [res_bind].
      exists (c =? 0). split; [reflexivity|].
      split; [now rewrite Z.eqb_eq|]. split; [|reflexivity].
      f_equal. destruct (Z.eqb_spec c 0) as [E|E], (Z.eqb_spec c' 0) as [E'|E'];
        try reflexivity; exfalso.
      * apply E'. apply Hi'. symmetry. now apply Hi.
      * apply E. apply Hi. symmetry. now apply Hi'.
  - unfold Inet6Address.eq_op. now rewrite Z.eqb_refl.
  - intros this l' Ht Hne. exists a.
    split; [unfold Inet6Address.copy; apply memcpy_whole; assumption|].
    unfold Inet6Address.eq_op, Inet6Address.deref.
    destruct (Z.eqb_spec l' l) as [->|_]; [contradiction|].
    destruct (Z.eqb_spec l l') as [E|_]; [symmetry in E; contradiction|].
    rewrite lookup_insert_eq, lookup_insert_ne, Hl by exact Hne.
    cbn [res_bind].
    destruct (Hcmp a a Ha Ha) as (c & Hc & Hi). rewrite Hc. cbn [res_bind].
    replace c with 0 by (symmetry; now apply Hi). split; reflexivity.
Qed.

Lemma C8_equality_is_bitwise_witness :
  exists e,
    Inet6Address.eq_op (<[1 := loopback6]> (<[2 := in6_tagged_inet]> ∅)) 1 2 = Ok e /\
    (e = true <-> loopback6 = in6_tagged_inet) /\
    Inet6Address.eq_op (<[1 := loopback6]> (<[2 := in6_tagged_inet]> ∅)) 2 1 = Ok e /\
    Inet6Address.ne_op (<[1 := loopback6]> (<[2 := in6_tagged_inet]> ∅)) 1 2
    = Ok (negb e).
Proof.
  exact (proj1 (C8_equality_is_bitwise
    (<[1 := loopback6]> (<[2 := in6_tagged_inet]> ∅)) 1 2
    loopback6 in6_tagged_inet eq_refl eq_refl eq_refl eq_refl)).
Defined.

(** C10: on an [inet6_address], [a[i]] for [0 <= i < 16] is the [i]-th byte
    of [a.address()], the byte at offset [8 + i] of the object; the operator
    makes no check, and for an index outside [0, 16) the array read has no
    defined value.  The indices 8 to 15, beyond the documented range, are
    read like the others. *)
Theorem C10_index (a : bytes) (i : Z) :
  length a = sizeof_sockaddr_in6 ->
  (0 <= i < 16 ->
     exists b, Inet6Address.index a i = Ok b /\
               nth_error (Inet6Address.address a) (Z.to_nat i) = Some b /\
               nth_error a (offsetof_sin6_addr + Z.to_nat i) = Some b) /\
  (i < 0 \/ 16 <= i -> Inet6Address.index a i = UB).
Proof.
  intros Ha. pose proof (address_length a Ha) as Hlen.
  cbv [sizeof_in6_addr] in Hlen.
  unfold Inet6Address.index, array_get. split.
  - intros Hi. destruct (Z.ltb_spec i 0) as [?|_]; [lia|].
    destruct (nth_error (Inet6Address.address a) (Z.to_nat i)) as [b|] eqn:E.
    + exists b. split; [reflexivity|]. split; [reflexivity|].
      revert E. unfold Inet6Address.address, field.
      rewrite nth_error_firstn, nth_error_skipn.
      destruct (_ <? _)%nat; [trivial|discriminate].
    + apply nth_error_None in E. lia.
  - intros Hi. destruct (Z.ltb_spec i 0) as [?|?]; [reflexivity|].
    assert (E : nth_error (Inet6Address.address a) (Z.to_nat i) = None)
      by (apply nth_error_None; lia).
    now rewrite E.
Qed.

Lemma C10_index_witness :
  (exists b, Inet6Address.index loopback6 15 = Ok b /\
             nth_error (Inet6Address.address loopback6) (Z.to_nat 15) = Some b /\
             nth_error loopback6 (offsetof_sin6_addr + Z.to_nat 15) = Some b) /\
  Inet6Address.index loopback6 16 = UB.
Proof.
  destruct (C10_index loopback6 15 eq_refl) as [Hin _].
  destruct (C10_index loopback6 16 eq_refl) as [_ Hout].
  split; [apply Hin; lia|apply Hout; lia].
Defined.

(** C4, on the code: [acceptor::open] has an empty body.  On every
    acceptor and every kernel, and so on one that would grant each call, it
    returns no value, calls nothing and leaves the acceptor as it was: a
    default-constructed acceptor is still without descriptor afterwards, and
    an acceptor that is already open gets no [true]. *)
Theorem C4_open_has_no_effect (kernel : Type) (addr : bytes) (len : nat)
  (queSize : Z) (a : Acceptor.acceptor) (k : kernel) :
  Acceptor.open addr len queSize a k = (None, a, k) /\
  Acceptor.open addr len queSize unopened k = (None, unopened, k) /\
  Socket.is_open (Acceptor.sock unopened) = false /\
  Acceptor.open addr len queSize opened k = (None, opened, k).
Proof. repeat split. Qed.

(** C5, as stated, fails on its handle clause: an acceptor that owns
    descriptor 3 and whose [::bind] is refused still owns descriptor 3.  In
    the class template the address cached after a successful [bind] is what
    the address type's constructor from a [sock_address] yields, which need
    not be the bound address: with [inet6_address] and [::1] port 5000 the
    cached address differs from the bound one. *)
Lemma C5_counterexample :
  (exists a',
     Acceptor.bind refusing (zeroed 128) loopback6 28 opened tt
     = Ok (false, a', tt) /\
     Socket.handle (Acceptor.sock a') = 3 /\
     Socket.is_open (Acceptor.sock a') = true) /\
  (exists t',
     AcceptorT.bind granting Inet6Address.of_sock_address (zeroed 128)
       (zeroed 28) loopback6 28 listening6 tt = Ok (true, t', tt) /\
     AcceptorT.addr_ t' <> loopback6).
Proof.
  split.
  - eexists. split; [reflexivity|]. split; reflexivity.
  - eexists. split; [vm_compute; reflexivity|]. vm_compute. discriminate.
Qed.

(** C5 (amended): when the native bind fails, [bind] returns [false] and
    leaves both the cached address and the handle as they were, recording
    the error; it does not close the descriptor.  When the native bind
    succeeds, [bind] returns [true], keeps the handle, clears the error and
    assigns [sock_address(addr, len)] to [addr_]: in the plain acceptor,
    whose [addr_] is a [sock_address], [addr_] then holds the [len] bytes of
    the bound address; in the class template, whose [addr_] is of the
    address type, [bind] is the conversion of that [sock_address] by the
    address type's constructor followed by the assignment of its result,
    whatever that constructor yields.  A failed [bind] of the class template
    behaves as that of the plain acceptor. *)
Theorem C5_bind (kernel : Type) (os : native kernel)
  (tmp addr : bytes) (len : nat) (a : Acceptor.acceptor)
  (k k1 : kernel) (ret : Z) :
  os_bind os k (Socket.handle (Acceptor.sock a)) addr len = (ret, k1) ->
  (ret < 0 ->
     exists a',
       Acceptor.bind os tmp addr len a k = Ok (false, a', k1) /\
       Acceptor.addr_ a' = Acceptor.addr_ a /\
       Socket.handle (Acceptor.sock a') = Socket.handle (Acceptor.sock a) /\
       Socket.lastErr_ (Acceptor.sock a') = get_last_error os k1) /\
  (0 <= ret ->
   length tmp = sizeof_sockaddr_storage ->
   (len <= length addr)%nat -> (len <= sizeof_sockaddr_storage)%nat ->
     exists a',
       Acceptor.bind os tmp addr len a k = Ok (true, a', k1) /\
       Socket.handle (Acceptor.sock a') = Socket.handle (Acceptor.sock a) /\
       Socket.lastErr_ (Acceptor.sock a') = 0 /\
       SockAddress.size (Acceptor.addr_ a') = len /\
       SockAddress.valid_bytes (Acceptor.addr_ a') = take len addr) /\
  (forall (conv : bytes -> SockAddress.sock_address -> res bytes)
          (tmp' : bytes) (t : AcceptorT.acceptor),
     Socket.handle (AcceptorT.sock t) = Socket.handle (Acceptor.sock a) ->
     ret < 0 ->
     exists t',
       AcceptorT.bind os conv tmp tmp' addr len t k = Ok (false, t', k1) /\
       AcceptorT.addr_ t' = AcceptorT.addr_ t /\
       Socket.handle (AcceptorT.sock t') = Socket.handle (AcceptorT.sock t) /\
       Socket.lastErr_ (AcceptorT.sock t') = get_last_error os k1) /\
  (forall (conv : bytes -> SockAddress.sock_address -> res bytes)
          (tmp' : bytes) (t : AcceptorT.acceptor),
     Socket.handle (AcceptorT.sock t) = Socket.handle (Acceptor.sock a) ->
     0 <= ret ->
     length tmp = sizeof_sockaddr_storage ->
     (len <= length addr)%nat -> (len <= sizeof_sockaddr_storage)%nat ->
     AcceptorT.bind os conv tmp tmp' addr len t k
     = (do v <- conv tmp' {| SockAddress.addr_ := take len addr ++ drop len tmp;
                             SockAddress.sz_ := len |} ;
        Ok (true,
            {| AcceptorT.sock :=
                 {| Socket.handle_ := Socket.handle_ (AcceptorT.sock t);
                    Socket.lastErr_ := 0 |};
               AcceptorT.addr_ := v |},
            k1))).
Proof.
  intros Hos. split; [|split; [|split]].
  - intros Hret. eexists. split; [now apply bind_failure with ret|].
    now repeat split.
  - intros Hret Ht Ha Hl. eexists.
    split; [now apply bind_success with ret|].
    split; [reflexivity|]. split; [reflexivity|]. split; [reflexivity|].
    unfold SockAddress.valid_bytes.
    cbn [SockAddress.sz_ SockAddress.addr_ Acceptor.addr_].
    rewrite take_app_le by (rewrite length_take; lia).
    rewrite take_take. f_equal. lia.
  - intros conv tmp' t Hh Hret. eexists.
    split; [apply bind_t_failure with ret; [now rewrite Hh|exact Hret]|].
    now repeat split.
  - intros conv tmp' t Hh Hret Ht Ha Hl. rewrite <- Hh in Hos.
    unfold AcceptorT.bind, Socket.check_ret_bool. rewrite Hos.
    destruct (Z.leb_spec 0 ret) as [_|?]; [|lia].
    destruct (Z.ltb_spec ret 0) as [?|_]; [lia|].
    now rewrite sock_address_make_Ok by assumption.
Qed.

(** A refused and a granted [bind] of the plain acceptor, and a granted
    [bind] of the template over [inet6_address]. *)
Lemma C5_bind_witness :
  (exists a',
     Acceptor.bind refusing (zeroed 128) loopback6 28 opened tt
     = Ok (false, a', tt) /\
     Acceptor.addr_ a' = Acceptor.addr_ opened /\
     Socket.handle (Acceptor.sock a') = Socket.handle (Acceptor.sock opened) /\
     Socket.lastErr_ (Acceptor.sock a') = 98) /\
  (exists a',
     Acceptor.bind granting (zeroed 128) loopback6 28 opened tt
     = Ok (true, a', tt) /\
     Socket.handle (Acceptor.sock a') = Socket.handle (Acceptor.sock opened) /\
     Socket.lastErr_ (Acceptor.sock a') = 0 /\
     SockAddress.size (Acceptor.addr_ a') = 28%nat /\
     SockAddress.valid_bytes (Acceptor.addr_ a') = take 28 loopback6) /\
  AcceptorT.bind granting Inet6Address.of_sock_address (zeroed 128)
    (zeroed 28) loopback6 28 listening6 tt
  = (do v <- Inet6Address.of_sock_address (zeroed 28)
               {| SockAddress.addr_ := take 28 loopback6 ++ drop 28 (zeroed 128);
                  SockAddress.sz_ := 28 |} ;
     Ok (true,
         {| AcceptorT.sock := {| Socket.handle_ := 3; Socket.lastErr_ := 0 |};
            AcceptorT.addr_ := v |},
         tt)).
Proof.
  assert (L28 : (28 <= length loopback6)%nat) by (apply Nat.leb_le; reflexivity).
  assert (L128 : (28 <= sizeof_sockaddr_storage)%nat)
    by (apply Nat.leb_le; reflexivity).
  split; [|split].
  - apply (proj1 (C5_bind unit refusing (zeroed 128) loopback6 28 opened
                    tt tt (-1) eq_refl)). lia.
  - apply (proj1 (proj2 (C5_bind unit granting (zeroed 128) loopback6 28 opened
                           tt tt 0 eq_refl))); try assumption.
    + lia.
    + reflexivity.
  - apply (proj2 (proj2 (proj2
             (C5_bind unit granting (zeroed 128) loopback6 28 opened
                tt tt 0 eq_refl)))
             Inet6Address.of_sock_address (zeroed 28) listening6);
      try assumption.
    + reflexivity.
    + lia.
    + reflexivity.
Defined.

(** C6, at the failing input.  A listening
    [acceptor<tcp6_socket, inet6_address>] accepts a peer connecting from
    [::1] port 5000 while its uninitialised [len] holds 0: the kernel is
    told the buffer has no room, and the address returned with the new
    socket is the all-zero default, not the peer's.  The socket wraps the
    descriptor the kernel returned and the acceptor is unchanged; with [len]
    holding 28 the same call returns the peer's address. *)
Theorem C6_accept_at_failing_input :
  AcceptorT.accept granting Inet6Address.default (zeroed 28) 0 listening6 tt
  = Ok ((Socket.stream_socket 4, zeroed 28), listening6, tt) /\
  zeroed 28 <> loopback6 /\
  AcceptorT.accept granting Inet6Address.default (zeroed 28) 28 listening6 tt
  = Ok ((Socket.stream_socket 4, loopback6), listening6, tt).
Proof.
  split; [reflexivity|]. split; [discriminate|reflexivity].
Qed.

End Claims.

(** * Further properties of the code *)

(** ** Helper facts *)
Section MoreFacts.
Import Platform.

Lemma memcpy_exact (dst src : bytes) (n : nat) :
  length dst = n ->
  memcpy dst src n = if (n <=? length src)%nat then Ok (take n src) else UB.
Proof.
  intros Hd. unfold memcpy. subst n. rewrite Nat.leb_refl. cbn [andb].
  destruct (length dst <=? length src)%nat; [|reflexivity].
  now rewrite drop_ge, app_nil_r by lia.
Qed.

Lemma until_NUL_padded (s : bytes) (k : nat) :
  no_NUL s -> until_NUL (s ++ replicate k NUL) = s.
Proof.
  induction 1 as [|c s Hc _ IH]; cbn [app until_NUL].
  - destruct k; reflexivity.
  - destruct (Byte.eqb c NUL) eqn:E.
    + apply Byte.byte_dec_bl in E. contradiction.
    + now rewrite IH.
Qed.

Lemma no_NUL_take (s : bytes) (n : nat) : no_NUL s -> no_NUL (take n s).
Proof. apply Forall_take. Qed.

Lemma field_app_l (off sz : nat) (x y : bytes) :
  (off + sz <= length x)%nat -> field off sz (x ++ y) = field off sz x.
Proof.
  intros H. unfold field. rewrite drop_app_le by lia.
  apply take_app_le. rewrite length_drop. lia.
Qed.

Lemma field_take (off sz n : nat) (a : bytes) :
  (off + sz <= n)%nat -> field off sz (take n a) = field off sz a.
Proof.
  intros H. unfold field.
  replace n with (off + (n - off))%nat by lia.
  rewrite <- take_drop_commute, take_take. f_equal. lia.
Qed.

Lemma default_Ok (this : bytes) :
  length this = sizeof_sockaddr_in6 ->
  Inet6Address.default this = Ok (replicate sizeof_sockaddr_in6 NUL).
Proof.
  intros Ht. unfold Inet6Address.default, Inet6Address.zero, memset0,
    Inet6Address.sizeof_inet6_address.
  rewrite Ht, Nat.leb_refl. now rewrite drop_ge, app_nil_r by lia.
Qed.

Lemma nth_error_replicate (n i : nat) (x : byte) :
  (i < n)%nat -> nth_error (replicate n x) i = Some x.
Proof.
  revert i. induction n as [|n IH]; intros i Hi; [lia|].
  destruct i; [reflexivity|]. cbn. apply IH. lia.
Qed.

(** [a[i]] read directly off the object. *)
Lemma index_nth (a : bytes) (i : Z) :
  0 <= i < 16 ->
  Inet6Address.index a i
  = match nth_error a (offsetof_sin6_addr + Z.to_nat i) with
    | Some b => Ok b
    | None => UB
    end.
Proof.
  intros Hi. unfold Inet6Address.index, array_get, Inet6Address.address, field.
  destruct (Z.ltb_spec i 0) as [?|_]; [lia|].
  rewrite nth_error_firstn, nth_error_skipn.
  destruct (Nat.ltb_spec (Z.to_nat i) sizeof_in6_addr) as [_|H]; [reflexivity|].
  cbv [sizeof_in6_addr] in H. lia.
Qed.

(** The path constructor written out: the object it builds and the
    [sun_path] inside it. *)
Lemma of_string_sun_path (this path : bytes) :
  length this = sizeof_sockaddr_un ->
  exists a,
    UnixAddress.of_string this path = Ok a /\
    a = [x01; x00] ++ UnixAddress.sun_path a /\
    UnixAddress.sun_path a
    = take UnixAddress.MAX_PATH_NAME (until_NUL path)
      ++ replicate (UnixAddress.MAX_PATH_NAME - length (until_NUL path)) NUL.
Proof.
  intros Ht. eexists. split; [now apply of_string_Ok|].
  assert (Hs : forall p : bytes, length p = sizeof_sun_path ->
                 UnixAddress.sun_path ([x01; x00] ++ p) = p)
    by (intros p Hp; now apply sun_path_tagged).
  rewrite Hs; [split; reflexivity|].
  rewrite length_app, length_take, length_replicate.
  cbv [UnixAddress.MAX_PATH_NAME sizeof_sun_path]. lia.
Qed.

(** [operator==] decides equality of the two objects. *)
Lemma eq_op_spec (h : Inet6Address.store) (l r : Inet6Address.loc)
  (a b : bytes) :
  h !! l = Some a -> h !! r = Some b ->
  length a = Inet6Address.sizeof_inet6_address ->
  length b = Inet6Address.sizeof_inet6_address ->
  exists e, Inet6Address.eq_op h l r = Ok e /\ (e = true <-> a = b).
Proof.
  intros Hl Hr Ha Hb. unfold Inet6Address.eq_op, Inet6Address.deref.
  destruct (Z.eqb_spec l r) as [->|_].
  - exists true. split; [reflexivity|]. split; [congruence|reflexivity].
  - rewrite Hl, Hr. cbn [res_bind].
    destruct (memcmp_spec Inet6Address.sizeof_inet6_address a b)
      as (c & Hc & Hi); [lia|lia|].
    rewrite Hc. cbn [res_bind]. exists (c =? 0). split; [reflexivity|].
    rewrite Z.eqb_eq, Hi. now rewrite !take_ge by lia.
Qed.

(** What the constructor from a generic [sockaddr] makes of a whole
    [unix_address]. *)
Lemma of_sockaddr_sun_path (this a : bytes) :
  length this = sizeof_sockaddr_un -> length a = sizeof_sockaddr_un ->
  UnixAddress.sun_family a = Ok AF_UNIX ->
  exists r,
    UnixAddress.of_sockaddr this (UnixAddress.sockaddr_ptr a) = Ok r /\
    length r = sizeof_sockaddr_un /\
    UnixAddress.sun_family r = Ok AF_UNIX /\
    UnixAddress.sun_path r
    = take 14 (UnixAddress.sun_path a) ++ drop sizeof_sockaddr this.
Proof.
  intros Ht Ha Hf. unfold UnixAddress.sockaddr_ptr.
  cbv [sizeof_sockaddr_un] in Ht, Ha.
  eexists. split.
  { apply of_sockaddr_accepts; [exact Hf|exact Ht|].
    rewrite Ha. cbv [sizeof_sockaddr]. lia. }
  assert (H16 : length (take sizeof_sockaddr a) = 16%nat)
    by (rewrite length_take, Ha; reflexivity).
  split; [|split].
  - rewrite length_app, H16, length_drop, Ht. reflexivity.
  - unfold UnixAddress.sun_family, load_u16 in *.
    rewrite field_app_l by (rewrite H16; lia).
    rewrite field_take by (cbv [sizeof_sockaddr]; lia). exact Hf.
  - unfold UnixAddress.sun_path, field, offsetof_sun_path, sizeof_sun_path,
      sizeof_sockaddr.
    rewrite drop_app_le by (fold sizeof_sockaddr; rewrite H16; lia).
    rewrite take_ge
      by (rewrite length_app, !length_drop, length_take, Ha, Ht; lia).
    f_equal. rewrite take_take.
    change (14 `min` 108)%nat with 14%nat.
    now rewrite (take_drop_commute a 14 2).
Qed.

End MoreFacts.

(** ** Address constructors *)
Section ExtraAddress.
Import Platform Examples.

(** X1: the path constructor, the constructor from a [sockaddr_un] of
    family [AF_UNIX], and the default, copy and [sockaddr_in6] constructors
    of [inet6_address] are defined on storage of the object's size and
    write every byte of it: each yields an object of that size which is
    given by the arguments alone and holds no byte of what the storage held
    before. *)
Theorem X1_constructors_initialise_every_byte
  (this this6 path addr addr6 : bytes) :
  length this = sizeof_sockaddr_un ->
  length this6 = sizeof_sockaddr_in6 ->
  UnixAddress.sun_family addr = Ok AF_UNIX ->
  (sizeof_sockaddr_un <= length addr)%nat ->
  (sizeof_sockaddr_in6 <= length addr6)%nat ->
  (exists u,
     UnixAddress.of_string this path = Ok u /\
     length u = sizeof_sockaddr_un /\
     u = [x01; x00]
         ++ take UnixAddress.MAX_PATH_NAME (until_NUL path)
         ++ replicate (UnixAddress.MAX_PATH_NAME - length (until_NUL path)) NUL) /\
  (UnixAddress.of_sockaddr_un this addr = Ok (take sizeof_sockaddr_un addr) /\
   length (take sizeof_sockaddr_un addr) = sizeof_sockaddr_un) /\
  (Inet6Address.default this6 = Ok (replicate sizeof_sockaddr_in6 NUL) /\
   length (replicate sizeof_sockaddr_in6 NUL) = sizeof_sockaddr_in6) /\
  (Inet6Address.copy this6 addr6 = Ok (take sizeof_sockaddr_in6 addr6) /\
   Inet6Address.of_sockaddr_in6 this6 addr6
   = Ok (take sizeof_sockaddr_in6 addr6) /\
   length (take sizeof_sockaddr_in6 addr6) = sizeof_sockaddr_in6).
Proof.
  intros Ht H6 Hf Ha Ha6. split; [|split; [|split]].
  - eexists. split; [now apply of_string_Ok|]. split; [|reflexivity].
    now apply (of_string_length this path), of_string_Ok.
  - split; [now apply of_sockaddr_un_accepts|].
    rewrite length_take. lia.
  - split; [now apply default_Ok|]. apply length_replicate.
  - split; [|split].
    + unfold Inet6Address.copy, Inet6Address.sizeof_inet6_address.
      rewrite memcpy_exact by exact H6.
      destruct (Nat.leb_spec sizeof_sockaddr_in6 (length addr6)); [reflexivity|lia].
    + now apply of_sockaddr_in6_Ok.
    + rewrite length_take. lia.
Qed.

Lemma X1_constructors_initialise_every_byte_witness :
  (exists u,
     UnixAddress.of_string (replicate 110 xff) long_path = Ok u /\
     length u = sizeof_sockaddr_un /\
     u = [x01; x00]
         ++ take UnixAddress.MAX_PATH_NAME (until_NUL long_path)
         ++ replicate
              (UnixAddress.MAX_PATH_NAME - length (until_NUL long_path)) NUL) /\
  (UnixAddress.of_sockaddr_un (replicate 110 xff) good_sockaddr_un
   = Ok (take sizeof_sockaddr_un good_sockaddr_un) /\
   length (take sizeof_sockaddr_un good_sockaddr_un) = sizeof_sockaddr_un) /\
  (Inet6Address.default (replicate 28 xff)
   = Ok (replicate sizeof_sockaddr_in6 NUL) /\
   length (replicate sizeof_sockaddr_in6 NUL) = sizeof_sockaddr_in6) /\
  (Inet6Address.copy (replicate 28 xff) loopback6
   = Ok (take sizeof_sockaddr_in6 loopback6) /\
   Inet6Address.of_sockaddr_in6 (replicate 28 xff) loopback6
   = Ok (take sizeof_sockaddr_in6 loopback6) /\
   length (take sizeof_sockaddr_in6 loopback6) = sizeof_sockaddr_in6).
Proof.
  refine (X1_constructors_initialise_every_byte
            (replicate 110 xff) (replicate 28 xff) long_path
            good_sockaddr_un loopback6 eq_refl eq_refl eq_refl _ _);
    apply Nat.leb_le; reflexivity.
Defined.

(** X2: two strings give the same [unix_address] exactly when the
    characters before their first NUL agree on the first [MAX_PATH_NAME]
    positions: longer paths with a common prefix of that length collide. *)
Theorem X2_path_constructor_collisions (this path path' : bytes) :
  length this = sizeof_sockaddr_un ->
  (UnixAddress.of_string this path = UnixAddress.of_string this path' <->
   take UnixAddress.MAX_PATH_NAME (until_NUL path)
   = take UnixAddress.MAX_PATH_NAME (until_NUL path')).
Proof.
  intros Ht. rewrite !of_string_Ok by exact Ht. split.
  - intros [= H]. apply (f_equal until_NUL) in H.
    rewrite !until_NUL_padded in H
      by (apply no_NUL_take, until_NUL_is_no_NUL).
    exact H.
  - intros H. rewrite H. do 4 f_equal.
    apply (f_equal length) in H. rewrite !length_take in H. lia.
Qed.

Lemma X2_path_constructor_collisions_witness :
  UnixAddress.of_string (zeroed 110) (full_path ++ [x62])
  = UnixAddress.of_string (zeroed 110) (full_path ++ [x63]).
Proof.
  apply (proj2 (X2_path_constructor_collisions (zeroed 110)
                  (full_path ++ [x62]) (full_path ++ [x63]) eq_refl)).
  vm_compute. reflexivity.
Defined.

(** X3: streaming the address built from a string whose characters
    before the first NUL are fewer than [MAX_PATH_NAME], onto a stream in
    good state, appends the literal ["unix:"] padded to the field width of
    the stream, followed by those characters, and resets the width; with a
    field width of at most 5 it appends exactly ["unix:"] and those
    characters.  On a stream that is not in good state no character is
    written: the stream is left as it is or undergoes [setstate(failbit)],
    as the stream library chooses.  With [MAX_PATH_NAME] or more such
    characters the constructor leaves [sun_path] without terminator: the
    inserter never returns a stream, and reads past [sun_path] on every
    stream that is good or throws nothing. *)
Theorem X3_stream_of_path (lib : Ostream.ostream -> bool)
  (this path : bytes) (os : Ostream.ostream) :
  length this = sizeof_sockaddr_un ->
  exists a,
    UnixAddress.of_string this path = Ok a /\
    ((length (until_NUL path) < UnixAddress.MAX_PATH_NAME)%nat ->
       (Ostream.good os = true ->
          UnixAddress.insert lib os a
          = Ok {| Ostream.out :=
                    Ostream.out os
                    ++ Ostream.padded os (list_byte_of_string "unix:")
                    ++ until_NUL path;
                  Ostream.width := 0;
                  Ostream.fill := Ostream.fill os;
                  Ostream.adjust_left := Ostream.adjust_left os;
                  Ostream.rdstate := Ostream.rdstate os;
                  Ostream.exceptions := Ostream.exceptions os |}) /\
       (Ostream.good os = true -> Ostream.width os <= 5 ->
          UnixAddress.insert lib os a
          = Ok {| Ostream.out :=
                    Ostream.out os ++ list_byte_of_string "unix:"
                    ++ until_NUL path;
                  Ostream.width := 0;
                  Ostream.fill := Ostream.fill os;
                  Ostream.adjust_left := Ostream.adjust_left os;
                  Ostream.rdstate := Ostream.rdstate os;
                  Ostream.exceptions := Ostream.exceptions os |}) /\
       (Ostream.good os = false ->
          (UnixAddress.insert lib os a = Ok os \/
           UnixAddress.insert lib os a
           = Ostream.setstate Ostream.failbit os) /\
          forall os', UnixAddress.insert lib os a = Ok os' ->
                      Ostream.out os' = Ostream.out os)) /\
    ((UnixAddress.MAX_PATH_NAME <= length (until_NUL path))%nat ->
       (Ostream.good os = true \/ Ostream.exceptions os = 0 ->
          UnixAddress.insert lib os a = UB) /\
       (UnixAddress.insert lib os a = UB \/
        UnixAddress.insert lib os a = Throw ios_base_failure)).
Proof.
  intros Ht. destruct (of_string_sun_path this path Ht) as (a & Ha & _ & Hs).
  exists a. split; [exact Ha|]. split.
  - intros Hlt.
    assert (Hc : cstring (UnixAddress.sun_path a) = Ok (until_NUL path)).
    { rewrite Hs, take_ge by lia.
      replace (UnixAddress.MAX_PATH_NAME - length (until_NUL path))%nat
        with (S (UnixAddress.MAX_PATH_NAME - length (until_NUL path) - 1))
        by lia.
      cbn [replicate]. apply cstring_terminated, until_NUL_is_no_NUL. }
    split; [|split].
    + intros Hg. now apply insert_good.
    + intros Hg Hw. rewrite (insert_good lib os a _ Hc Hg).
      rewrite padded_narrow; [reflexivity|].
      change (length (list_byte_of_string "unix:")) with 5%nat. lia.
    + intros Hg. split; [now apply insert_not_good with (until_NUL path)|].
      intros os' Hi.
      now apply insert_not_good_out with lib a (until_NUL path).
  - intros Hge.
    assert (Hn : no_NUL (UnixAddress.sun_path a)).
    { rewrite Hs.
      replace (UnixAddress.MAX_PATH_NAME - length (until_NUL path))%nat
        with 0%nat by lia.
      cbn [replicate]. rewrite app_nil_r.
      apply no_NUL_take, until_NUL_is_no_NUL. }
    split; [intros Hos; now apply insert_unterminated|].
    now apply insert_unterminated_outcome.
Qed.

Lemma X3_stream_of_path_witness :
  exists a,
    UnixAddress.of_string (zeroed 110) (list_byte_of_string "/tmp/test.sock")
    = Ok a /\
    UnixAddress.insert sets_when_bad fresh_stream a
    = Ok {| Ostream.out := list_byte_of_string "unix:/tmp/test.sock";
            Ostream.width := 0;
            Ostream.fill := x20;
            Ostream.adjust_left := false;
            Ostream.rdstate := Ostream.goodbit;
            Ostream.exceptions := 0 |}.
Proof.
  destruct (X3_stream_of_path sets_when_bad (zeroed 110)
              (list_byte_of_string "/tmp/test.sock") fresh_stream eq_refl)
    as (a & Ha & Hshort & _).
  exists a. split; [exact Ha|].
  assert (Hlt : (length (until_NUL (list_byte_of_string "/tmp/test.sock"))
                 < UnixAddress.MAX_PATH_NAME)%nat)
    by (apply Nat.ltb_lt; reflexivity).
  destruct (Hshort Hlt) as (_ & Hplain & _).
  apply Hplain; [reflexivity|cbn; lia].
Defined.

(** X4: the constructor from a generic [sockaddr], given a whole
    [unix_address] of family [AF_UNIX], keeps the family and the first 14
    bytes of [sun_path]; the other 94 bytes of [sun_path] are what the
    storage of the new object held. *)
Theorem X4_generic_constructor_keeps_14_bytes (this a : bytes) :
  length this = sizeof_sockaddr_un -> length a = sizeof_sockaddr_un ->
  UnixAddress.sun_family a = Ok AF_UNIX ->
  exists r,
    UnixAddress.of_sockaddr this (UnixAddress.sockaddr_ptr a) = Ok r /\
    length r = sizeof_sockaddr_un /\
    UnixAddress.sun_family r = Ok AF_UNIX /\
    UnixAddress.sun_path r
    = take 14 (UnixAddress.sun_path a) ++ drop sizeof_sockaddr this.
Proof. exact (of_sockaddr_sun_path this a). Qed.

Lemma X4_generic_constructor_keeps_14_bytes_witness :
  exists r,
    UnixAddress.of_sockaddr (replicate 110 xff)
      (UnixAddress.sockaddr_ptr good_sockaddr_un) = Ok r /\
    length r = sizeof_sockaddr_un /\
    UnixAddress.sun_family r = Ok AF_UNIX /\
    UnixAddress.sun_path r
    = take 14 (UnixAddress.sun_path good_sockaddr_un)
      ++ drop sizeof_sockaddr (replicate 110 xff).
Proof.
  exact (X4_generic_constructor_keeps_14_bytes (replicate 110 xff)
           good_sockaddr_un eq_refl eq_refl eq_refl).
Defined.

(** X5: a path without NUL of at most 13 characters survives the way
    through [sockaddr_ptr()] and the constructor from a generic [sockaddr],
    whatever the storage of either object held: the path and its terminator
    lie within the 14 bytes that are copied. *)
Theorem X5_short_path_survives_generic_round_trip (this this' path : bytes) :
  length this = sizeof_sockaddr_un -> length this' = sizeof_sockaddr_un ->
  no_NUL path -> (length path <= 13)%nat ->
  exists u r,
    UnixAddress.of_string this path = Ok u /\
    UnixAddress.of_sockaddr this' (UnixAddress.sockaddr_ptr u) = Ok r /\
    UnixAddress.sun_family r = Ok AF_UNIX /\
    UnixAddress.path r = Ok path.
Proof.
  intros Ht Ht' Hn Hlen.
  destruct (of_string_sun_path this path Ht) as (u & Hu & Hshape & Hs).
  assert (Hul : length u = sizeof_sockaddr_un)
    by (now apply of_string_length with this path).
  assert (Huf : UnixAddress.sun_family u = Ok AF_UNIX)
    by (rewrite Hshape; reflexivity).
  destruct (of_sockaddr_sun_path this' u Ht' Hul Huf) as (r & Hr & _ & Hf & Hp).
  exists u, r. split; [exact Hu|]. split; [exact Hr|]. split; [exact Hf|].
  unfold UnixAddress.path. rewrite Hp, Hs.
  rewrite until_NUL_no_NUL by exact Hn.
  rewrite (take_ge path)
    by (cbv [UnixAddress.MAX_PATH_NAME sizeof_sun_path]; lia).
  rewrite take_app_ge by lia. rewrite take_replicate.
  replace ((14 - length path) `min` (UnixAddress.MAX_PATH_NAME - length path))%nat
    with (S (13 - length path))
    by (cbv [UnixAddress.MAX_PATH_NAME sizeof_sun_path]; lia).
  cbn [replicate]. rewrite <- !app_assoc. cbn [app].
  now apply cstring_terminated.
Qed.

Lemma X5_short_path_survives_generic_round_trip_witness :
  exists u r,
    UnixAddress.of_string (zeroed 110) (list_byte_of_string "/tmp/sock") = Ok u /\
    UnixAddress.of_sockaddr (replicate 110 xff) (UnixAddress.sockaddr_ptr u)
    = Ok r /\
    UnixAddress.sun_family r = Ok AF_UNIX /\
    UnixAddress.path r = Ok (list_byte_of_string "/tmp/sock").
Proof.
  apply (X5_short_path_survives_generic_round_trip (zeroed 110)
           (replicate 110 xff) (list_byte_of_string "/tmp/sock")
           eq_refl eq_refl).
  - repeat constructor; discriminate.
  - apply Nat.leb_le. reflexivity.
Defined.

(** X6: an address rebuilt from its own native structure of the family, a
    [unix_address] from [sockaddr_un_ptr()] and an [inet6_address] from
    [sockaddr_in6_ptr()], is the same object byte for byte, whatever the
    storage of the new object held. *)
Theorem X6_native_round_trip (this u this6 a6 : bytes) :
  length this = sizeof_sockaddr_un -> length u = sizeof_sockaddr_un ->
  UnixAddress.sun_family u = Ok AF_UNIX ->
  length this6 = sizeof_sockaddr_in6 -> length a6 = sizeof_sockaddr_in6 ->
  UnixAddress.of_sockaddr_un this (UnixAddress.sockaddr_un_ptr u) = Ok u /\
  Inet6Address.of_sockaddr_in6 this6 (Inet6Address.sockaddr_in6_ptr a6) = Ok a6.
Proof.
  intros Ht Hu Hf H6 Ha6. split.
  - now apply of_sockaddr_un_round_trip.
  - now apply of_sockaddr_in6_round_trip.
Qed.

Lemma X6_native_round_trip_witness :
  UnixAddress.of_sockaddr_un (replicate 110 xff)
    (UnixAddress.sockaddr_un_ptr good_sockaddr_un) = Ok good_sockaddr_un /\
  Inet6Address.of_sockaddr_in6 (replicate 28 xff)
    (Inet6Address.sockaddr_in6_ptr loopback6) = Ok loopback6.
Proof.
  exact (X6_native_round_trip (replicate 110 xff) good_sockaddr_un
           (replicate 28 xff) loopback6 eq_refl eq_refl eq_refl eq_refl eq_refl).
Defined.

(** X7: through [to_sock_address()] and back through the constructor from
    a [sock_address], an [inet6_address] keeps its family, its port and the
    bytes 0 to 7 of its host address; the bytes 8 to 15 of the host address
    and everything after are those the storage of the new object held. *)
Theorem X7_sock_address_round_trip (tmp this a : bytes) :
  length tmp = sizeof_sockaddr_storage ->
  length this = sizeof_sockaddr_in6 -> length a = sizeof_sockaddr_in6 ->
  exists r,
    (do sa <- Inet6Address.to_sock_address tmp a ;
     Inet6Address.of_sock_address this sa) = Ok r /\
    length r = sizeof_sockaddr_in6 /\
    Inet6Address.sin6_family r = Inet6Address.sin6_family a /\
    Inet6Address.port r = Inet6Address.port a /\
    (forall i, 0 <= i < 8 -> Inet6Address.index r i = Inet6Address.index a i) /\
    (forall i, 8 <= i < 16 ->
       Inet6Address.index r i = Inet6Address.index this i) /\
    drop sizeof_sockaddr_in r = drop sizeof_sockaddr_in this.
Proof.
  intros Ht Hs Ha. eexists. split; [now apply sock_address_round_trip|].
  cbv [sizeof_sockaddr_in6] in Hs, Ha.
  assert (H16 : length (take sizeof_sockaddr_in a) = 16%nat)
    by (rewrite length_take, Ha; reflexivity).
  split; [|split; [|split; [|split; [|split]]]].
  - rewrite length_app, H16, length_drop, Hs. reflexivity.
  - unfold Inet6Address.sin6_family, load_u16.
    rewrite field_app_l by (rewrite H16; lia).
    now rewrite field_take by (cbv [sizeof_sockaddr_in]; lia).
  - unfold Inet6Address.port, load_u16_be.
    rewrite field_app_l by (rewrite H16; cbv [offsetof_sin6_port]; lia).
    now rewrite field_take
      by (cbv [sizeof_sockaddr_in offsetof_sin6_port]; lia).
  - intros i Hi. rewrite !index_nth by lia.
    rewrite nth_error_app1 by (rewrite H16; cbv [offsetof_sin6_addr]; lia).
    rewrite nth_error_firstn.
    destruct (Nat.ltb_spec (offsetof_sin6_addr + Z.to_nat i) sizeof_sockaddr_in)
      as [_|H]; [reflexivity|].
    cbv [offsetof_sin6_addr sizeof_sockaddr_in] in H. lia.
  - intros i Hi. rewrite !index_nth by lia.
    rewrite nth_error_app2 by (rewrite H16; cbv [offsetof_sin6_addr]; lia).
    rewrite H16, nth_error_skipn.
    replace (sizeof_sockaddr_in + (offsetof_sin6_addr + Z.to_nat i - 16))%nat
      with (offsetof_sin6_addr + Z.to_nat i)%nat
      by (cbv [sizeof_sockaddr_in offsetof_sin6_addr]; lia).
    reflexivity.
  - rewrite drop_app_length'; [reflexivity|]. now rewrite H16.
Qed.

Lemma X7_sock_address_round_trip_witness :
  exists r,
    (do sa <- Inet6Address.to_sock_address (zeroed 128) loopback6 ;
     Inet6Address.of_sock_address (replicate 28 xff) sa) = Ok r /\
    length r = sizeof_sockaddr_in6 /\
    Inet6Address.sin6_family r = Inet6Address.sin6_family loopback6 /\
    Inet6Address.port r = Inet6Address.port loopback6 /\
    (forall i, 0 <= i < 8 ->
       Inet6Address.index r i = Inet6Address.index loopback6 i) /\
    (forall i, 8 <= i < 16 ->
       Inet6Address.index r i = Inet6Address.index (replicate 28 xff) i) /\
    drop sizeof_sockaddr_in r = drop sizeof_sockaddr_in (replicate 28 xff).
Proof.
  exact (X7_sock_address_round_trip (zeroed 128) (replicate 28 xff) loopback6
           eq_refl eq_refl eq_refl).
Defined.

(** X8: a default-constructed [inet6_address] is all zero whatever its
    storage held: family 0, port 0, and every byte of the host address 0. *)
Theorem X8_default_is_zero (this : bytes) :
  length this = sizeof_sockaddr_in6 ->
  exists a,
    Inet6Address.default this = Ok a /\
    a = replicate sizeof_sockaddr_in6 NUL /\
    Inet6Address.sin6_family a = Ok 0 /\
    Inet6Address.port a = Ok 0 /\
    (forall i, 0 <= i < 16 -> Inet6Address.index a i = Ok NUL).
Proof.
  intros Ht. eexists. split; [now apply default_Ok|].
  split; [reflexivity|]. split; [reflexivity|]. split; [reflexivity|].
  intros i Hi. rewrite index_nth by exact Hi.
  rewrite nth_error_replicate; [reflexivity|].
  cbv [offsetof_sin6_addr sizeof_sockaddr_in6]. lia.
Qed.

Lemma X8_default_is_zero_witness :
  exists a,
    Inet6Address.default (replicate 28 xff) = Ok a /\
    a = replicate sizeof_sockaddr_in6 NUL /\
    Inet6Address.sin6_family a = Ok 0 /\
    Inet6Address.port a = Ok 0 /\
    (forall i, 0 <= i < 16 -> Inet6Address.index a i = Ok NUL).
Proof. exact (X8_default_is_zero (replicate 28 xff) eq_refl). Defined.

(** X9: [operator==] on [inet6_address] is transitive, also across
    operands that are the same object. *)
Theorem X9_equality_is_transitive (h : Inet6Address.store)
  (l m r : Inet6Address.loc) (a b c : bytes) :
  h !! l = Some a -> h !! m = Some b -> h !! r = Some c ->
  length a = Inet6Address.sizeof_inet6_address ->
  length b = Inet6Address.sizeof_inet6_address ->
  length c = Inet6Address.sizeof_inet6_address ->
  Inet6Address.eq_op h l m = Ok true ->
  Inet6Address.eq_op h m r = Ok true ->
  Inet6Address.eq_op h l r = Ok true.
Proof.
  intros Hl Hm Hr Ha Hb Hc Hlm Hmr.
  destruct (eq_op_spec h l m a b Hl Hm Ha Hb) as (e1 & He1 & Hi1).
  destruct (eq_op_spec h m r b c Hm Hr Hb Hc) as (e2 & He2 & Hi2).
  destruct (eq_op_spec h l r a c Hl Hr Ha Hc) as (e3 & He3 & Hi3).
  rewrite He1 in Hlm. rewrite He2 in Hmr.
  injection Hlm as ->. injection Hmr as ->.
  rewrite He3. f_equal. apply Hi3.
  transitivity b; [now apply Hi1|now apply Hi2].
Qed.

Lemma X9_equality_is_transitive_witness :
  Inet6Address.eq_op
    (<[1 := loopback6]> (<[2 := loopback6]> (<[3 := loopback6]> ∅))) 1 3
  = Ok true.
Proof.
  apply (X9_equality_is_transitive
           (<[1 := loopback6]> (<[2 := loopback6]> (<[3 := loopback6]> ∅)))
           1 2 3 loopback6 loopback6 loopback6);
    try reflexivity; vm_compute; reflexivity.
Defined.

End ExtraAddress.

(** ** The acceptor template *)
Section ExtraAcceptor.
Import Platform Socket Examples.

(** X10: when [::accept] fails, [accept] neither throws nor reports the
    failure apart from the last-error slot: it returns a socket holding the
    negative value [::accept] returned, together with a default-constructed
    address, and leaves the acceptor's handle and cached address alone. *)
Theorem X10_accept_failure_returns_invalid_socket
  (kernel : Type) (os : native kernel) (acc_default : bytes -> res bytes)
  (this_addr d peer : bytes) (len0 ret : Z)
  (a : AcceptorT.acceptor) (k k1 : kernel) :
  os_accept os k (handle (AcceptorT.sock a)) len0 = ((ret, peer), k1) ->
  ret < 0 -> acc_default this_addr = Ok d ->
  AcceptorT.accept os acc_default this_addr len0 a k
  = Ok ((stream_socket ret, d),
        {| AcceptorT.sock := {| handle_ := handle_ (AcceptorT.sock a);
                                lastErr_ := get_last_error os k1 |};
           AcceptorT.addr_ := AcceptorT.addr_ a |},
        k1).
Proof.
  intros Hos Hret Hd. unfold AcceptorT.accept. rewrite Hd. cbn [res_bind].
  rewrite Hos. unfold accept_copy_out, check_ret.
  destruct (Z.ltb_spec ret 0) as [_|?]; [reflexivity|lia].
Qed.

Lemma X10_accept_failure_returns_invalid_socket_witness :
  AcceptorT.accept refusing Inet6Address.default (replicate 28 xff) 28
    listening6 tt
  = Ok ((stream_socket (-1), zeroed 28),
        {| AcceptorT.sock := {| handle_ := 3; lastErr_ := 98 |};
           AcceptorT.addr_ := loopback6 |},
        tt).
Proof.
  refine (X10_accept_failure_returns_invalid_socket unit refusing
            Inet6Address.default (replicate 28 xff) (zeroed 28) [] 28 (-1)
            listening6 tt tt eq_refl _ eq_refl).
  lia.
Defined.

(** X11: when [::accept] succeeds, the address [accept] returns is the
    default-constructed one with its first [min(len, size of the peer's
    address)] bytes replaced by the peer's, [len] being the value the
    uninitialised local held; the socket holds the new descriptor and the
    acceptor keeps its handle and cached address. *)
Theorem X11_accept_copies_len_bytes
  (kernel : Type) (os : native kernel) (acc_default : bytes -> res bytes)
  (this_addr d peer : bytes) (len0 ret : Z)
  (a : AcceptorT.acceptor) (k k1 : kernel) :
  os_accept os k (handle (AcceptorT.sock a)) len0 = ((ret, peer), k1) ->
  0 <= ret -> acc_default this_addr = Ok d ->
  (Z.to_nat (Z.min len0 (Z.of_nat (length peer))) <= length d)%nat ->
  AcceptorT.accept os acc_default this_addr len0 a k
  = Ok ((stream_socket ret,
         take (Z.to_nat (Z.min len0 (Z.of_nat (length peer)))) peer
         ++ drop (Z.to_nat (Z.min len0 (Z.of_nat (length peer)))) d),
        {| AcceptorT.sock := {| handle_ := handle_ (AcceptorT.sock a);
                                lastErr_ := 0 |};
           AcceptorT.addr_ := AcceptorT.addr_ a |},
        k1).
Proof.
  intros Hos Hret Hd Hn. unfold AcceptorT.accept. rewrite Hd. cbn [res_bind].
  rewrite Hos. unfold accept_copy_out, check_ret.
  destruct (Z.ltb_spec ret 0) as [?|_]; [lia|].
  rewrite memcpy_Ok by lia. reflexivity.
Qed.

Lemma X11_accept_copies_len_bytes_witness :
  AcceptorT.accept granting Inet6Address.default (replicate 28 xff) 4
    listening6 tt
  = Ok ((stream_socket 4, take 4 loopback6 ++ drop 4 (zeroed 28)),
        {| AcceptorT.sock := {| handle_ := 3; lastErr_ := 0 |};
           AcceptorT.addr_ := loopback6 |},
        tt).
Proof.
  refine (X11_accept_copies_len_bytes unit granting
            Inet6Address.default (replicate 28 xff) (zeroed 28) loopback6 4 4
            listening6 tt tt eq_refl _ eq_refl _).
  - lia.
  - apply Nat.leb_le. reflexivity.
Defined.

(** X12: in an acceptor whose address type is [inet6_address], a
    successful [bind] to a 28-byte address caches only its first 16 bytes:
    the assignment goes through the constructor from a [sock_address], so
    the last 12 bytes of [addr()] are what the temporary's storage held. *)
Theorem X12_bind_caches_16_bytes_of_inet6
  (kernel : Type) (os : native kernel) (tmp tmp' a6 : bytes) (ret : Z)
  (t : AcceptorT.acceptor) (k k1 : kernel) :
  os_bind os k (handle (AcceptorT.sock t)) (Inet6Address.sockaddr_ptr a6)
    (Inet6Address.size a6) = (ret, k1) ->
  0 <= ret ->
  length tmp = sizeof_sockaddr_storage ->
  length tmp' = sizeof_sockaddr_in6 -> length a6 = sizeof_sockaddr_in6 ->
  exists t',
    AcceptorT.bind os Inet6Address.of_sock_address tmp tmp'
      (Inet6Address.sockaddr_ptr a6) (Inet6Address.size a6) t k
    = Ok (true, t', k1) /\
    handle (AcceptorT.sock t') = handle (AcceptorT.sock t) /\
    AcceptorT.addr t'
    = take sizeof_sockaddr_in a6 ++ drop sizeof_sockaddr_in tmp'.
Proof.
  intros Hos Hret Ht Ht' Ha.
  unfold Inet6Address.sockaddr_ptr, Inet6Address.size in *.
  assert (Hconv :
    Inet6Address.of_sock_address tmp'
      {| SockAddress.addr_ :=
           take sizeof_sockaddr_in6 a6 ++ drop sizeof_sockaddr_in6 tmp;
         SockAddress.sz_ := sizeof_sockaddr_in6 |}
    = Ok (take sizeof_sockaddr_in a6 ++ drop sizeof_sockaddr_in tmp')).
  { rewrite of_sock_address_Ok.
    - cbn [SockAddress.addr_]. rewrite (take_ge a6) by lia.
      rewrite take_app_le
        by (rewrite Ha; cbv [sizeof_sockaddr_in sizeof_sockaddr_in6]; lia).
      reflexivity.
    - exact Ht'.
    - cbn [SockAddress.addr_]. rewrite length_app, length_take, Ha.
      cbv [sizeof_sockaddr_in sizeof_sockaddr_in6]. lia. }
  eexists. split.
  - apply bind_t_success with ret; try eassumption.
    + rewrite Ha. lia.
    + cbv [sizeof_sockaddr_in6 sizeof_sockaddr_storage]. lia.
  - split; reflexivity.
Qed.

Lemma X12_bind_caches_16_bytes_of_inet6_witness :
  exists t',
    AcceptorT.bind granting Inet6Address.of_sock_address (zeroed 128)
      (replicate 28 xff) (Inet6Address.sockaddr_ptr loopback6)
      (Inet6Address.size loopback6) listening6 tt
    = Ok (true, t', tt) /\
    handle (AcceptorT.sock t') = handle (AcceptorT.sock listening6) /\
    AcceptorT.addr t'
    = take sizeof_sockaddr_in loopback6
      ++ drop sizeof_sockaddr_in (replicate 28 xff).
Proof.
  refine (X12_bind_caches_16_bytes_of_inet6 unit granting (zeroed 128)
            (replicate 28 xff) loopback6 0 listening6 tt tt
            eq_refl _ eq_refl eq_refl eq_refl).
  lia.
Defined.

(** X13: the constructor of the acceptor template yields an acceptor
    exactly when both [::bind] and [::listen] succeed, and then the acceptor
    holds the handle of its base socket, a cleared last-error slot and the
    converted address.  When [::bind] fails it throws [ConstructionError]
    whatever [::listen] would have answered, and when [::bind] succeeds but
    [::listen] fails it throws [ConstructionError] as well. *)
Theorem X13_constructor_binds_then_listens
  (kernel : Type) (os : native kernel) (acc_default : bytes -> res bytes)
  (conv : bytes -> SockAddress.sock_address -> res bytes)
  (s0 : socket) (this_addr tmp tmp' addr d : bytes) (len : nat)
  (queSize r1 : Z) (k k1 : kernel) :
  acc_default this_addr = Ok d ->
  os_bind os k (handle s0) addr len = (r1, k1) ->
  (r1 < 0 ->
     AcceptorT.construct os acc_default conv s0 this_addr tmp tmp'
       addr len queSize k = Throw ConstructionError) /\
  (forall (v : bytes) (r2 : Z) (k2 : kernel),
     0 <= r1 ->
     length tmp = sizeof_sockaddr_storage ->
     (len <= length addr)%nat -> (len <= sizeof_sockaddr_storage)%nat ->
     conv tmp' {| SockAddress.addr_ := take len addr ++ drop len tmp;
                  SockAddress.sz_ := len |} = Ok v ->
     os_listen os k1 (handle s0) queSize = (r2, k2) ->
     (r2 < 0 ->
        AcceptorT.construct os acc_default conv s0 this_addr tmp tmp'
          addr len queSize k = Throw ConstructionError) /\
     (0 <= r2 ->
        AcceptorT.construct os acc_default conv s0 this_addr tmp tmp'
          addr len queSize k
        = Ok ({| AcceptorT.sock := {| handle_ := handle_ s0; lastErr_ := 0 |};
                 AcceptorT.addr_ := v |}, k2))).
Proof.
  intros Hd Hb. split.
  - intros Hr1. unfold AcceptorT.construct. rewrite Hd. cbn [res_bind].
    rewrite (bind_t_failure os conv tmp tmp' addr len
               {| AcceptorT.sock := s0; AcceptorT.addr_ := d |} k k1 r1 Hb Hr1).
    reflexivity.
  - intros v r2 k2 Hr1 Ht Ha Hl Hv Hlis.
    assert (Hc : AcceptorT.construct os acc_default conv s0 this_addr tmp tmp'
                   addr len queSize k
                 = let '(ok2, a2, k2') :=
                     AcceptorT.listen os queSize
                       {| AcceptorT.sock := {| handle_ := handle_ s0;
                                               lastErr_ := 0 |};
                          AcceptorT.addr_ := v |} k1 in
                   if negb ok2 then Throw ConstructionError else Ok (a2, k2')).
    { unfold AcceptorT.construct. rewrite Hd. cbn [res_bind].
      rewrite (bind_t_success os conv tmp tmp' addr v len
                 {| AcceptorT.sock := s0; AcceptorT.addr_ := d |} k k1 r1
                 Hb Hr1 Ht Ha Hl Hv).
      reflexivity. }
    rewrite Hc. unfold AcceptorT.listen, check_ret_bool.
    cbn [AcceptorT.sock AcceptorT.addr_ handle handle_].
    unfold handle in Hlis. rewrite Hlis. split; intros Hr2.
    + destruct (Z.leb_spec 0 r2) as [?|_]; [lia|]. reflexivity.
    + destruct (Z.leb_spec 0 r2) as [_|?]; [|lia].
      destruct (Z.ltb_spec r2 0) as [?|_]; [lia|]. reflexivity.
Qed.

Lemma X13_constructor_binds_then_listens_witness :
  AcceptorT.construct refusing Inet6Address.default
    Inet6Address.of_sock_address (stream_socket 3) (replicate 28 xff)
    (zeroed 128) (zeroed 28) loopback6 28 4 tt
  = Throw ConstructionError /\
  AcceptorT.construct granting Inet6Address.default
    Inet6Address.of_sock_address (stream_socket 3) (replicate 28 xff)
    (zeroed 128) (zeroed 28) loopback6 28 4 tt
  = Ok ({| AcceptorT.sock := {| handle_ := 3; lastErr_ := 0 |};
           AcceptorT.addr_ := take 16 loopback6 ++ zeroed 12 |}, tt).
Proof.
  split.
  - apply (proj1 (X13_constructor_binds_then_listens unit refusing
                    Inet6Address.default Inet6Address.of_sock_address
                    (stream_socket 3) (replicate 28 xff) (zeroed 128)
                    (zeroed 28) loopback6 (zeroed 28) 28 4 (-1) tt tt
                    eq_refl eq_refl)).
    lia.
  - refine (proj2 (proj2 (X13_constructor_binds_then_listens unit granting
                    Inet6Address.default Inet6Address.of_sock_address
                    (stream_socket 3) (replicate 28 xff) (zeroed 128)
                    (zeroed 28) loopback6 (zeroed 28) 28 4 0 tt tt
                    eq_refl eq_refl)
                  (take 16 loopback6 ++ zeroed 12) 0 tt _ eq_refl _ _
                  eq_refl eq_refl) _); try lia.
    + apply Nat.leb_le. reflexivity.
    + apply Nat.leb_le. reflexivity.
Defined.

(** X14: in the plain acceptor, a [listen] that fails after a successful
    [bind] undoes nothing: it returns [false] and records the error, and the
    acceptor still holds its descriptor and the address [bind] cached. *)
Theorem X14_failed_listen_keeps_bound_state
  (kernel : Type) (os : native kernel) (tmp addr : bytes) (len : nat)
  (queSize r1 r2 : Z) (a : Acceptor.acceptor) (k k1 k2 : kernel) :
  os_bind os k (handle (Acceptor.sock a)) addr len = (r1, k1) -> 0 <= r1 ->
  length tmp = sizeof_sockaddr_storage ->
  (len <= length addr)%nat -> (len <= sizeof_sockaddr_storage)%nat ->
  os_listen os k1 (handle (Acceptor.sock a)) queSize = (r2, k2) -> r2 < 0 ->
  exists a1 a2,
    Acceptor.bind os tmp addr len a k = Ok (true, a1, k1) /\
    Acceptor.listen os queSize a1 k1 = (false, a2, k2) /\
    handle (Acceptor.sock a2) = handle (Acceptor.sock a) /\
    lastErr_ (Acceptor.sock a2) = get_last_error os k2 /\
    Acceptor.addr_ a2 = Acceptor.addr_ a1 /\
    SockAddress.valid_bytes (Acceptor.addr_ a2) = take len addr.
Proof.
  intros Hb Hr1 Ht Ha Hl Hlis Hr2. eexists. eexists.
  split; [now apply bind_success with r1|].
  unfold Acceptor.listen, check_ret_bool.
  cbn [Acceptor.sock Acceptor.addr_ handle handle_].
  unfold handle in Hlis. rewrite Hlis.
  destruct (Z.leb_spec 0 r2) as [?|_]; [lia|].
  destruct (Z.ltb_spec r2 0) as [_|?]; [|lia].
  split; [reflexivity|]. split; [reflexivity|]. split; [reflexivity|].
  split; [reflexivity|].
  unfold SockAddress.valid_bytes.
  cbn [SockAddress.sz_ SockAddress.addr_ Acceptor.addr_].
  rewrite take_app_le by (rewrite length_take; lia).
  rewrite take_take. f_equal. lia.
Qed.

(** A kernel that grants [::bind] and refuses [::listen]. *)
Lemma X14_failed_listen_keeps_bound_state_witness :
  exists a1 a2,
    Acceptor.bind
      {| os_bind := fun k _ _ _ => (0, k);
         os_listen := fun k _ _ => (-1, k);
         os_accept := fun k _ _ => ((-1, []), k);
         get_last_error := fun _ => 98 |}
      (zeroed 128) loopback6 28 opened tt = Ok (true, a1, tt) /\
    Acceptor.listen
      {| os_bind := fun k _ _ _ => (0, k);
         os_listen := fun k _ _ => (-1, k);
         os_accept := fun k _ _ => ((-1, []), k);
         get_last_error := fun _ => 98 |}
      4 a1 tt = (false, a2, tt) /\
    handle (Acceptor.sock a2) = handle (Acceptor.sock opened) /\
    lastErr_ (Acceptor.sock a2) = 98 /\
    Acceptor.addr_ a2 = Acceptor.addr_ a1 /\
    SockAddress.valid_bytes (Acceptor.addr_ a2) = take 28 loopback6.
Proof.
  refine (X14_failed_listen_keeps_bound_state unit
            {| os_bind := fun k _ _ _ => (0, k);
               os_listen := fun k _ _ => (-1, k);
               os_accept := fun k _ _ => ((-1, []), k);
               get_last_error := fun _ => 98 |}
            (zeroed 128) loopback6 28 4 0 (-1) opened tt tt tt
            eq_refl _ eq_refl _ _ eq_refl _); try lia.
  - apply Nat.leb_le. reflexivity.
  - apply Nat.leb_le. reflexivity.
Defined.

End ExtraAcceptor.

(** ** Unterminated paths *)
Section ExtraTermination.
Import Platform Examples.

(** X15: the constructor from a [sockaddr_un] does not look at the path: a
    structure of family [AF_UNIX] whose [sun_path] holds no NUL is accepted
    and copied whole, and reading the path of the resulting address, with
    [path()] or the stream inserter, runs past [sun_path]: whatever the
    width, fill, adjustment and state of the stream the inserter never
    returns a stream, and it runs past [sun_path] whenever the stream is
    good or throws nothing, so that the insertion of the literal returns. *)
Theorem X15_unterminated_sockaddr_un_is_accepted (this u : bytes) :
  length this = sizeof_sockaddr_un -> length u = sizeof_sockaddr_un ->
  UnixAddress.sun_family u = Ok AF_UNIX ->
  no_NUL (UnixAddress.sun_path u) ->
  UnixAddress.of_sockaddr_un this u = Ok u /\
  UnixAddress.path u = UB /\
  (forall (lib : Ostream.ostream -> bool) (os : Ostream.ostream),
     (Ostream.good os = true \/ Ostream.exceptions os = 0 ->
        UnixAddress.insert lib os u = UB) /\
     (UnixAddress.insert lib os u = UB \/
      UnixAddress.insert lib os u = Throw ios_base_failure)).
Proof.
  intros Ht Hu Hf Hn. split; [|split].
  - now apply (of_sockaddr_un_round_trip this u).
  - unfold UnixAddress.path. now apply cstring_unterminated.
  - intros lib os. split.
    + intros Hos. now apply insert_unterminated.
    + now apply insert_unterminated_outcome.
Qed.

Lemma X15_unterminated_sockaddr_un_is_accepted_witness :
  UnixAddress.of_sockaddr_un (zeroed 110) ([x01; x00] ++ full_path)
  = Ok ([x01; x00] ++ full_path) /\
  UnixAddress.path ([x01; x00] ++ full_path) = UB /\
  UnixAddress.insert sets_when_bad wide_stream ([x01; x00] ++ full_path) = UB /\
  UnixAddress.insert always_sets failed_stream ([x01; x00] ++ full_path) = UB.
Proof.
  assert (Hn : no_NUL (UnixAddress.sun_path ([x01; x00] ++ full_path))).
  { change (no_NUL (replicate 108 x61)).
    apply Forall_replicate. discriminate. }
  destruct (X15_unterminated_sockaddr_un_is_accepted (zeroed 110)
              ([x01; x00] ++ full_path) eq_refl eq_refl eq_refl Hn)
    as (Hc & Hp & Hi).
  split; [exact Hc|]. split; [exact Hp|].
  split; apply (proj1 (Hi _ _)); [left|right]; reflexivity.
Defined.

End ExtraTermination.
